(** * The User model of the moderator backend

    A shallow embedding of [packages/backend-api/src/models/user.ts]:
    the group constants, the model options handed to the ORM (indexes,
    the [requireEmailForHumans] validator, the lifecycle hooks) and the
    duck-typed predicate [isUser], together with the properties the
    specification states about them. *)

From Stdlib Require Import Ascii.
From stdpp Require Import gmap strings list fin_maps.

Open Scope string_scope.
Open Scope list_scope.

(** ** Run-time values

    [isUser] takes [any], and the validator reads attributes that the
    type annotations do not enforce at run time, so the embedding works
    on untyped values.  An object is a finite map from the property names
    a read resolves, own or inherited, to slots; a slot is a data property
    or an accessor, of which only the outcome of the getter matters here.
    [VFun] is a bare callable; a function carrying properties of its own
    reads like an object. *)

Inductive js_error :=
  | Error (message : string)
  | TypeError (message : string).

Inductive value :=
  | VUndefined
  | VNull
  | VBool (b : bool)
  | VNum (n : Z)
  | VNaN
  | VStr (s : string)
  | VFun (name : string)
  | VObj (props : gmap string slot)
with slot :=
  | Data (v : value)
  | Getter (returns : value)
  | ThrowingGetter (e : js_error).

(** Completion of an evaluation: a value, or a thrown error. *)
Inductive completion (A : Type) :=
  | Return (a : A)
  | Throw (e : js_error).
Arguments Return {A} a.
Arguments Throw {A} e.

#[global] Instance completion_ret : MRet completion := @Return.
#[global] Instance completion_bind : MBind completion :=
  fun A B f c => match c with Return a => f a | Throw e => Throw e end.

(** ToBoolean. *)
Definition to_boolean (v : value) : bool :=
  match v with
  | VUndefined | VNull | VNaN => false
  | VBool b => b
  | VNum n => negb (n =? 0)%Z
  | VStr s => negb (String.eqb s "")
  | VFun _ | VObj _ => true
  end.

(** [v === k] for a string constant [k]: no coercion, so only a string
    value can be equal to it. *)
Definition strict_eq_string (v : value) (k : string) : bool :=
  match v with
  | VStr s => String.eqb s k
  | _ => false
  end.

(** Property read [v.key].  Reading from [null] or [undefined] throws;
    an accessor runs its getter; the names read in this file ([get],
    [group]) are on no built-in prototype, so a primitive, a function, or
    an object without the property yields [undefined]. *)
Definition get_prop (v : value) (key : string) : completion value :=
  match v with
  | VUndefined => Throw (TypeError ("Cannot read property '" +:+ key +:+ "' of undefined"))
  | VNull => Throw (TypeError ("Cannot read property '" +:+ key +:+ "' of null"))
  | VObj props =>
      match props !! key with
      | Some (Data x) => Return x
      | Some (Getter x) => Return x
      | Some (ThrowingGetter e) => Throw e
      | None => Return VUndefined
      end
  | _ => Return VUndefined
  end.

(** ** [isUser]

    [return instance && instance.get && !!instance.group;]
    [a && b] yields [a] itself when [a] is falsy and does not evaluate
    [b]. *)
Definition isUser (instance : value) : completion value :=
  if to_boolean instance then
    g ← get_prop instance "get";
    if to_boolean g then
      grp ← get_prop instance "group";
      mret (VBool (negb (negb (to_boolean grp))))
    else mret g
  else mret instance.

(** Object literal [{ k1: v1, ... }]. *)
Definition obj (l : list (string * slot)) : value := VObj (list_to_map l).

(** ** Group constants *)

Definition USER_GROUP_GENERAL : string := "general".
Definition USER_GROUP_ADMIN : string := "admin".
Definition USER_GROUP_SERVICE : string := "service".
Definition USER_GROUP_YOUTUBE : string := "youtube".
Definition USER_GROUP_MODERATOR : string := "moderator".

Definition USER_GROUPS : list string :=
  [ USER_GROUP_GENERAL; USER_GROUP_ADMIN; USER_GROUP_SERVICE;
    USER_GROUP_YOUTUBE; USER_GROUP_MODERATOR ].

Definition ENDPOINT_TYPE_PROXY : string := "perspective-proxy".
Definition ENDPOINT_TYPE_API : string := "perspective-api".

(** ** The validation library

    The validation library is an external collaborator.  The fragment the
    model uses is "a required string matching the email grammar", checked
    on the value as it is; the grammar itself is the parameter [is_email]
    of [Joi.validate]. *)
Module Joi.

(** Modelled from the spec: a string schema, with the rules the model
    asks for. *)
Record schema := {
  email_rule : bool;      (* .email() *)
  presence_required : bool (* .required() *)
}.

Record options := { convert : bool }.

(** Modelled from the spec: the error detail of a failed validation. *)
Inductive validation_error :=
  | any_required | any_empty | string_base | string_email.

(** Modelled from the spec: the outcome of a validation, [error] being
    [None] when the value is valid. *)
Record result := { error : option validation_error; result_value : value }.

(** [.email()] *)
Definition email (s : schema) : schema :=
  {| email_rule := true; presence_required := presence_required s |}.

(** [.required()] *)
Definition required (s : schema) : schema :=
  {| email_rule := email_rule s; presence_required := true |}.

(** Modelled from the spec: validation of a value against a string
    schema.  [convert] would only allow string-to-string clean-ups
    (trimming, case) that the schema must ask for; a value that is not
    a string is never turned into one. *)
Definition validate (is_email : String.string → bool)
    (v : value) (s : schema) (o : options) : result :=
  let err :=
    match v with
    | VUndefined => if presence_required s then Some any_required else None
    | VStr x =>
        if String.eqb x "" then Some any_empty
        else if email_rule s && negb (is_email x) then Some string_email
        else None
    | _ => Some string_base
    end in
  {| error := err; result_value := v |}.

(** [Joi.string()] *)
Definition string : schema :=
  {| email_rule := false; presence_required := false |}.

End Joi.

(** A deliberately small grammar to run the model on concrete records:
    some character, an at sign, some character. *)
Fixpoint has_at (seen : bool) (s : string) : bool :=
  match s with
  | EmptyString => false
  | String c rest =>
      if Ascii.eqb c "@"%char then seen && negb (String.eqb rest "")
      else has_at true rest
  end.
Definition sample_grammar (s : string) : bool := has_at false s.

(** ** The candidate record

    [IUserAttributes] with the base attribute [id]; the fields hold what
    the instance holds at run time. *)
Record IUserAttributes := {
  id : value;
  group : value;
  email : value;
  name : value;
  isActive : value;
  avatarURL : value;
  extra : value
}.

(** A model method runs with the instance as [this]: it may read and
    write it, and may throw. *)
Definition method (A : Type) : Type :=
  IUserAttributes → completion A * IUserAttributes.

#[global] Instance method_ret : MRet method := λ A a this, (Return a, this).
#[global] Instance method_bind : MBind method := λ A B f m this,
  match m this with
  | (Return a, this') => f a this'
  | (Throw e, this') => (Throw e, this')
  end.

Definition read (field : IUserAttributes → value) : method value :=
  λ this, (Return (field this), this).
Definition throw {A : Type} (e : js_error) : method A :=
  λ this, (Throw e, this).

(** ** Attribute declarations *)

Inductive data_type :=
  | INTEGER_UNSIGNED
  | ENUM (members : list string)
  | CHAR (width : nat)
  | BOOLEAN
  | JSON.

Record attribute := {
  type : data_type;
  allowNull : bool;
  defaultValue : option value;
  primaryKey : bool;
  autoIncrement : bool
}.

(** The first argument of [sequelize.define]. *)
Module Attributes.
Definition id : attribute :=
  {| type := INTEGER_UNSIGNED; allowNull := false; defaultValue := None;
     primaryKey := true; autoIncrement := true |}.
Definition group : attribute :=
  {| type := ENUM USER_GROUPS; allowNull := false; defaultValue := None;
     primaryKey := false; autoIncrement := false |}.
Definition name : attribute :=
  {| type := CHAR 255; allowNull := false; defaultValue := None;
     primaryKey := false; autoIncrement := false |}.
Definition email : attribute :=
  {| type := CHAR 255; allowNull := true; defaultValue := None;
     primaryKey := false; autoIncrement := false |}.
Definition isActive : attribute :=
  {| type := BOOLEAN; allowNull := false; defaultValue := Some (VBool false);
     primaryKey := false; autoIncrement := false |}.
Definition avatarURL : attribute :=
  {| type := CHAR 255; allowNull := true; defaultValue := None;
     primaryKey := false; autoIncrement := false |}.
Definition extra : attribute :=
  {| type := JSON; allowNull := true; defaultValue := None;
     primaryKey := false; autoIncrement := false |}.
End Attributes.

(** ** Index declarations

    An index without [unique] is not unique. *)
Record index := {
  index_name : option string;
  fields : list string;
  unique : bool
}.

Definition indexes : list index :=
  [ {| index_name := Some "users_email"; fields := ["email"]; unique := false |};
    {| index_name := Some "group_index"; fields := ["group"]; unique := false |};
    {| index_name := Some "isActive_index"; fields := ["isActive"]; unique := false |};
    {| index_name := None; fields := ["email"; "group"]; unique := true |} ].

(** ** Lifecycle hooks *)

Inductive operation :=
  | OpCreate | OpUpdate | OpDestroy
  | OpBulkCreate | OpBulkUpdate | OpBulkDestroy.

Inductive hook_name :=
  | beforeCreate | afterCreate
  | beforeDestroy | afterDestroy
  | beforeUpdate | afterUpdate
  | beforeBulkCreate | afterBulkCreate
  | beforeBulkUpdate | afterBulkUpdate
  | beforeBulkDestroy | afterBulkDestroy.

#[global] Instance hook_name_eq_dec : EqDecision hook_name.
Proof. solve_decision. Defined.

(** Modelled from the spec: what an observer of the system sees, in
    order: a mutation of the users table becoming durable, and a call of
    the update notifier. *)
Inductive event :=
  | Committed (op : operation)
  | UpdateHappened.

Definition callback : Type := list event → list event.

(** Modelled from the spec: [updateHappened] of [./last_update], which is
    not under src/; an opaque notifier taking no parameters, of which a
    call is observed. *)
Definition updateHappened : callback := λ trace, trace ++ [UpdateHappened].

Definition hooks : list (hook_name * callback) :=
  [ (afterCreate, updateHappened);
    (afterDestroy, updateHappened);
    (afterUpdate, updateHappened);
    (afterBulkCreate, updateHappened);
    (afterBulkUpdate, updateHappened);
    (afterBulkDestroy, updateHappened) ].

(** ** The storage layer: rows and rejections *)

(** Modelled from the spec: a persisted row of the users table, one cell
    per declared attribute; [None] is SQL NULL, and [extra] is kept as the
    payload it was given. *)
Record row := {
  row_id : N;
  row_group : option string;
  row_name : option string;
  row_email : option string;
  row_isActive : option bool;
  row_avatarURL : option string;
  row_extra : value
}.

(** Modelled from the spec: why the storage layer rejects a write. *)
Inductive rejection :=
  | ValidationError (e : js_error)
  | DatabaseError (column : string)
  | UniqueConstraintError (on : list string)
  | NotFound (rid : N).

(** Modelled from the spec: a write is accepted or rejected. *)
Inductive outcome (A : Type) :=
  | Ok (a : A)
  | Rejected (r : rejection).
Arguments Ok {A} a.
Arguments Rejected {A} r.

#[global] Instance outcome_ret : MRet outcome := @Ok.
#[global] Instance outcome_bind : MBind outcome :=
  λ A B f o, match o with Ok a => f a | Rejected r => Rejected r end.

(** Modelled from the spec: the value of a column that can take part in
    an index. *)
Inductive key :=
  | KInt (n : N)
  | KText (s : option string)
  | KBool (b : option bool).

#[global] Instance key_eq_dec : EqDecision key.
Proof. solve_decision. Defined.

(** Modelled from the spec: the users table, the auto-increment counter
    of its primary key, and the trace of observable events. *)
Record db := {
  table : gmap N row;
  next_id : N;
  trace : list event
}.

(** Modelled from the spec: the storage layer before any write. *)
Definition empty_db : db := {| table := ∅; next_id := 1; trace := [] |}.

(** Modelled from the spec: the entry points of the storage layer that
    the hooks attach to.  An update carries the primary key of the row
    and the instance with its new values. *)
Inductive mutation :=
  | Create (u : IUserAttributes)
  | Update (rid : N) (u : IUserAttributes)
  | Destroy (rid : N)
  | BulkCreate (us : list IUserAttributes)
  | BulkUpdate (ups : list (N * IUserAttributes))
  | BulkDestroy (rids : list N).

(** Modelled from the spec: the operation an entry point performs. *)
Definition operation_of (m : mutation) : operation :=
  match m with
  | Create _ => OpCreate
  | Update _ _ => OpUpdate
  | Destroy _ => OpDestroy
  | BulkCreate _ => OpBulkCreate
  | BulkUpdate _ => OpBulkUpdate
  | BulkDestroy _ => OpBulkDestroy
  end.

(** Modelled from the spec: the hook names an operation runs, before and
    after it. *)
Definition before_hook (op : operation) : hook_name :=
  match op with
  | OpCreate => beforeCreate
  | OpUpdate => beforeUpdate
  | OpDestroy => beforeDestroy
  | OpBulkCreate => beforeBulkCreate
  | OpBulkUpdate => beforeBulkUpdate
  | OpBulkDestroy => beforeBulkDestroy
  end.

Definition after_hook (op : operation) : hook_name :=
  match op with
  | OpCreate => afterCreate
  | OpUpdate => afterUpdate
  | OpDestroy => afterDestroy
  | OpBulkCreate => afterBulkCreate
  | OpBulkUpdate => afterBulkUpdate
  | OpBulkDestroy => afterBulkDestroy
  end.

(** Modelled from the spec: running the callbacks registered under a hook
    name, in registration order. *)
Definition run_hooks (registered : list (hook_name * callback))
    (h : hook_name) (t : list event) : list event :=
  foldl (λ acc entry, if decide (entry.1 = h) then entry.2 acc else acc)
        t registered.

(** Modelled from the spec: a string fits an enumeration when it is a
    member, and bounded text when it is no longer than the bound. *)
Definition fits (ty : data_type) (s : string) : bool :=
  match ty with
  | ENUM members => bool_decide (s ∈ members)
  | CHAR width => bool_decide (String.length s ≤ width)%nat
  | _ => false
  end.

(** Modelled from the spec: a text column takes a string that fits its
    type, and NULL for a missing or null value when it is nullable. *)
Definition store_text (column : string) (a : attribute) (v : value)
    : outcome (option string) :=
  match v with
  | VStr s => if fits (type a) s then Ok (Some s) else Rejected (DatabaseError column)
  | VNull | VUndefined =>
      if allowNull a then Ok None else Rejected (DatabaseError column)
  | _ => Rejected (DatabaseError column)
  end.

(** Modelled from the spec: storing a run-time value in a boolean column;
    a missing value takes the declared default. *)
Definition store_bool (column : string) (a : attribute) (v : value)
    : outcome (option bool) :=
  match v with
  | VBool b => Ok (Some b)
  | VUndefined =>
      match defaultValue a with
      | Some (VBool b) => Ok (Some b)
      | _ => if allowNull a then Ok None else Rejected (DatabaseError column)
      end
  | VNull => if allowNull a then Ok None else Rejected (DatabaseError column)
  | _ => Rejected (DatabaseError column)
  end.

(** Modelled from the spec: the row a candidate record is persisted as,
    under primary key [rid]; [extra] is taken as it is. *)
Definition to_row (rid : N) (u : IUserAttributes) : outcome row :=
  g ← store_text "group" Attributes.group (group u);
  n ← store_text "name" Attributes.name (name u);
  e ← store_text "email" Attributes.email (email u);
  a ← store_bool "isActive" Attributes.isActive (isActive u);
  av ← store_text "avatarURL" Attributes.avatarURL (avatarURL u);
  mret {| row_id := rid; row_group := g; row_name := n; row_email := e;
          row_isActive := a; row_avatarURL := av; row_extra := extra u |}.

(** Modelled from the spec: the key a row has in a column; a JSON column
    has none. *)
Definition column_key (field : string) (r : row) : option key :=
  if String.eqb field "id" then Some (KInt (row_id r))
  else if String.eqb field "group" then Some (KText (row_group r))
  else if String.eqb field "name" then Some (KText (row_name r))
  else if String.eqb field "email" then Some (KText (row_email r))
  else if String.eqb field "isActive" then Some (KBool (row_isActive r))
  else if String.eqb field "avatarURL" then Some (KText (row_avatarURL r))
  else None.

(** Modelled from the spec: a NULL cell. *)
Definition is_null (k : key) : bool :=
  match k with
  | KText None | KBool None => true
  | _ => false
  end.

(** Modelled from the spec: two rows have the same key in a column.  The
    declared indexes become constraints of the SQL table, and under a SQL
    uniqueness constraint a NULL cell is the same as no cell, another NULL
    included. *)
Definition same_key (field : string) (r1 r2 : row) : bool :=
  match column_key field r1, column_key field r2 with
  | Some k1, Some k2 => negb (is_null k1) && bool_decide (k1 = k2)
  | _, _ => false
  end.

(** Modelled from the spec: two rows collide on an index when it is
    unique and they have the same key in each of its fields. *)
Definition collide (ix : index) (r1 r2 : row) : bool :=
  unique ix && forallb (λ f, same_key f r1 r2) (fields ix).

(** Modelled from the spec: an index is violated by a candidate row when
    a persisted row other than the candidate itself collides with it. *)
Definition clashes (t : gmap N row) (r : row) (ix : index) : bool :=
  existsb (λ p : N * row, negb (p.1 =? row_id r)%N && collide ix r p.2)
          (map_to_list t).

(** Modelled from the spec: the first declared index that the candidate
    row violates. *)
Definition violated (declared : list index) (t : gmap N row) (r : row)
    : option index :=
  List.find (clashes t r) declared.

Section UserModel.

(** The email grammar of the validation library. *)
Variable is_email : string → bool.

(** ** The model-wide validator

    Require an email address for non-service users. *)
Definition requireEmailForHumans : method unit :=
  g ← read group;
  if strict_eq_string g USER_GROUP_GENERAL || strict_eq_string g USER_GROUP_ADMIN then
    e ← read email;
    let validEmail :=
      Joi.validate is_email e (Joi.required (Joi.email Joi.string))
                   {| Joi.convert := false |} in
    match Joi.error validEmail with
    | Some _ => throw (Error "Email address required for human users")
    | None => mret tt
    end
  else mret tt.

(** The [validate] option of the model. *)
Definition validate : list (string * method unit) :=
  [ ("requireEmailForHumans", requireEmailForHumans) ].

(** ** The storage layer: operations *)

(** Modelled from the spec: the validation phase, before anything is
    written; the validators run in order with the candidate as [this],
    and the first error ends the phase. *)
Fixpoint run_validators (vs : list (string * method unit))
    (this : IUserAttributes) : completion unit * IUserAttributes :=
  match vs with
  | [] => (Return tt, this)
  | (_, v) :: rest =>
      match v this with
      | (Return _, this') => run_validators rest this'
      | (Throw e, this') => (Throw e, this')
      end
  end.

(** Modelled from the spec: what a candidate must pass to be written
    under primary key [rid]: the validation phase, the column types, and
    the unique indexes. *)
Definition checked_row (t : gmap N row) (rid : N) (u : IUserAttributes)
    : outcome row :=
  match run_validators validate u with
  | (Throw e, _) => Rejected (ValidationError e)
  | (Return _, u') =>
      r ← to_row rid u';
      match violated indexes t r with
      | Some ix => Rejected (UniqueConstraintError (fields ix))
      | None => Ok r
      end
  end.

(** Modelled from the spec: insert of one row under the next primary
    key. *)
Definition insert_one (u : IUserAttributes) (s : gmap N row * N)
    : outcome (gmap N row * N) :=
  r ← checked_row s.1 s.2 u;
  mret (<[s.2 := r]> s.1, N.succ s.2).

(** Modelled from the spec: update of the row under primary key [rid],
    which must exist. *)
Definition update_one (rid : N) (u : IUserAttributes) (s : gmap N row * N)
    : outcome (gmap N row * N) :=
  r ← checked_row s.1 rid u;
  match s.1 !! rid with
  | None => Rejected (NotFound rid)
  | Some _ => Ok (<[rid := r]> s.1, s.2)
  end.

(** Modelled from the spec: hard delete of the row under primary key
    [rid], which must exist. *)
Definition delete_one (rid : N) (s : gmap N row * N)
    : outcome (gmap N row * N) :=
  match s.1 !! rid with
  | None => Rejected (NotFound rid)
  | Some _ => Ok (delete rid s.1, s.2)
  end.

(** Modelled from the spec: a bulk variant applies the single-row steps
    in order as one batch, which is written whole or not at all. *)
Fixpoint batch {A : Type}
    (step : A → gmap N row * N → outcome (gmap N row * N))
    (xs : list A) (s : gmap N row * N) : outcome (gmap N row * N) :=
  match xs with
  | [] => Ok s
  | x :: rest => s' ← step x s; batch step rest s'
  end.

(** Modelled from the spec: the effect of an entry point on the table. *)
Definition apply_mutation (m : mutation) (s : gmap N row * N)
    : outcome (gmap N row * N) :=
  match m with
  | Create u => insert_one u s
  | Update rid u => update_one rid u s
  | Destroy rid => delete_one rid s
  | BulkCreate us => batch insert_one us s
  | BulkUpdate ups => batch (λ p, update_one p.1 p.2) ups s
  | BulkDestroy rids => batch delete_one rids s
  end.

(** Modelled from the spec: an entry point of the storage layer.  The
    callbacks registered before the operation run first; a rejected
    mutation writes nothing; an accepted one becomes durable and then
    the callbacks registered after the operation run. *)
Definition exec (m : mutation) (d : db) : outcome unit * db :=
  let op := operation_of m in
  let t0 := run_hooks hooks (before_hook op) (trace d) in
  match apply_mutation m (table d, next_id d) with
  | Rejected r =>
      (Rejected r, {| table := table d; next_id := next_id d; trace := t0 |})
  | Ok s =>
      (Ok tt, {| table := s.1; next_id := s.2;
                 trace := run_hooks hooks (after_hook op) (t0 ++ [Committed op]) |})
  end.

(** Modelled from the spec: the states of the storage layer that writes
    can lead to. *)
Inductive reachable : db → Prop :=
  | reachable_empty : reachable empty_db
  | reachable_exec (m : mutation) (d : db) :
      reachable d → reachable (exec m d).2.

End UserModel.

Definition alice : IUserAttributes :=
  {| id := VUndefined; group := VStr "general"; email := VStr "a@example.com";
     name := VStr "Alice"; isActive := VBool true; avatarURL := VUndefined;
     extra := VUndefined |}.
Definition bob : IUserAttributes :=
  {| id := VUndefined; group := VStr "general"; email := VNull;
     name := VStr "Bob"; isActive := VBool true; avatarURL := VUndefined;
     extra := VUndefined |}.
Definition svc_bot : IUserAttributes :=
  {| id := VUndefined; group := VStr "service"; email := VNull;
     name := VStr "svc-bot"; isActive := VBool true; avatarURL := VUndefined;
     extra := VUndefined |}.

Definition shared_service : IUserAttributes :=
  {| id := VUndefined; group := VStr "service"; email := VStr "shared@example.com";
     name := VStr "svc-bot"; isActive := VBool true; avatarURL := VUndefined;
     extra := VUndefined |}.

Definition with_extra (x : value) (u : IUserAttributes) : IUserAttributes :=
  {| id := id u; group := group u; email := email u; name := name u;
     isActive := isActive u; avatarURL := avatarURL u; extra := x |}.

(** Two candidates with the same fields, [extra] apart. *)
Definition same_but_extra (u1 u2 : IUserAttributes) : Prop :=
  id u1 = id u2 ∧ group u1 = group u2 ∧ email u1 = email u2
  ∧ name u1 = name u2 ∧ isActive u1 = isActive u2
  ∧ avatarURL u1 = avatarURL u2.

(** Two mutations that differ in the [extra] payloads they carry only. *)
Definition same_mutation_but_extra (m1 m2 : mutation) : Prop :=
  match m1, m2 with
  | Create u1, Create u2 => same_but_extra u1 u2
  | Update i u1, Update j u2 => i = j ∧ same_but_extra u1 u2
  | Destroy i, Destroy j => i = j
  | BulkCreate us1, BulkCreate us2 => Forall2 same_but_extra us1 us2
  | BulkUpdate ups1, BulkUpdate ups2 =>
      Forall2 (λ p q : N * IUserAttributes, p.1 = q.1 ∧ same_but_extra p.2 q.2)
              ups1 ups2
  | BulkDestroy l1, BulkDestroy l2 => l1 = l2
  | _, _ => False
  end.

(** A row with its payload blanked, to compare rows up to [extra]. *)
Definition forget_extra (r : row) : row :=
  {| row_id := row_id r; row_group := row_group r; row_name := row_name r;
     row_email := row_email r; row_isActive := row_isActive r;
     row_avatarURL := row_avatarURL r; row_extra := VUndefined |}.

(** Two tables with the same rows up to [extra], and the same counter. *)
Definition alike (s1 s2 : gmap N row * N) : Prop :=
  forget_extra <$> s1.1 = forget_extra <$> s2.1 ∧ s1.2 = s2.2.

(** Two outcomes that are both accepted, with related results, or both
    rejected for the same reason. *)
Definition alike_outcome {A : Type} (R : A → A → Prop) (o1 o2 : outcome A) : Prop :=
  match o1, o2 with
  | Ok a1, Ok a2 => R a1 a2
  | Rejected r1, Rejected r2 => r1 = r2
  | _, _ => False
  end.

(** The candidate is a human user: its group is [general] or [admin]. *)
Definition human (u : IUserAttributes) : Prop :=
  group u = VStr USER_GROUP_GENERAL ∨ group u = VStr USER_GROUP_ADMIN.

(** The email is missing, null, or a string outside the grammar. *)
Definition invalid_email (is_email : string → bool) (v : value) : Prop :=
  v = VUndefined ∨ v = VNull ∨ ∃ s, v = VStr s ∧ is_email s = false.

(** Reading property [key] of [v] runs no getter that throws. *)
Definition quiet_read (v : value) (key : string) : Prop :=
  match v with
  | VObj props => ∀ e, props !! key ≠ Some (ThrowingGetter e)
  | _ => True
  end.

(** The (email, group) pair of a persisted row. *)
Definition email_group (r : row) : option string * option string :=
  (row_email r, row_group r).

(** The error of [requireEmailForHumans]. *)
Definition the_error : js_error := Error "Email address required for human users".

(** The unique index of the model. *)
Definition email_group_index : index :=
  {| index_name := None; fields := ["email"; "group"]; unique := true |}.

(** Rows sit under their own primary key, below the counter. *)
Definition well_keyed (t : gmap N row) (n : N) : Prop :=
  ∀ i r, t !! i = Some r → row_id r = i ∧ (i < n)%N.

(** The two rows have the same (email, group) pair, of cells that are
    not NULL. *)
Definition same_pair (r1 r2 : row) : bool :=
  bool_decide (row_email r1 ≠ None ∧ row_group r1 ≠ None
               ∧ email_group r1 = email_group r2).

(** No two persisted rows with an email have the same (email, group)
    pair. *)
Definition pairs_unique (t : gmap N row) : Prop :=
  ∀ i j r1 r2, t !! i = Some r1 → t !! j = Some r2 → i ≠ j →
    row_email r1 ≠ None → email_group r1 ≠ email_group r2.

(** The invariant of the users table. *)
Definition consistent (s : gmap N row * N) : Prop :=
  well_keyed s.1 s.2 ∧ pairs_unique s.1.

(** ** Sample records and states *)

Definition second_service : IUserAttributes :=
  {| id := VUndefined; group := VStr "service"; email := VUndefined;
     name := VStr "other-bot"; isActive := VBool false; avatarURL := VUndefined;
     extra := VNull |}.

Definition one_service : db :=
  (exec sample_grammar (Create svc_bot) empty_db).2.

Definition two_services : db :=
  (exec sample_grammar (Create second_service) one_service).2.

Definition two_users : db :=
  (exec sample_grammar (Create svc_bot)
     (exec sample_grammar (Create alice) empty_db).2).2.

Definition string_object : value :=
  obj [("toString", Data (VFun "toString")); ("value", Data (VStr "a@example.com"))].

Definition admin_with_object_email : IUserAttributes :=
  {| id := VUndefined; group := VStr "admin"; email := string_object;
     name := VStr "Root"; isActive := VBool true; avatarURL := VNull;
     extra := VNull |}.

Definition scorer_extra : value :=
  obj [("endpointType", Data (VStr ENDPOINT_TYPE_API));
       ("apiKey", Data (VStr "key"));
       ("endpoint", Data (VStr "https://example.com"))].

Definition alice_renamed : IUserAttributes :=
  {| id := VNum 7; group := group alice; email := email alice;
     name := VStr "Alicia"; isActive := VBool false;
     avatarURL := VStr "https://example.com/a.png"; extra := scorer_extra |}.

(** ** Associations

    [User.associate] wires the model to the others through
    [User.belongsToMany].  That method belongs to the ORM: the embedding
    records each call it accepts, in order, and takes what it refuses as a
    parameter. *)
Module BelongsToMany.

Record through_options := {
  model : value;
  unique : bool
}.

(** The field [as_] is the option [as]. *)
Record options := {
  through : through_options;
  foreignKey : string;
  as_ : option string
}.

End BelongsToMany.

(** A call [User.belongsToMany(target, options)]. *)
Record association := {
  target : value;
  options : BelongsToMany.options
}.

(** Wiring code runs over the associations of the model so far, and may
    throw. *)
Definition wiring (A : Type) : Type :=
  list association → completion A * list association.

#[global] Instance wiring_ret : MRet wiring := λ A a st, (Return a, st).
#[global] Instance wiring_bind : MBind wiring := λ A B f m st,
  match m st with
  | (Return a, st') => f a st'
  | (Throw e, st') => (Throw e, st')
  end.

(** An expression evaluated for its value: no association is touched. *)
Definition evaluate {A : Type} (c : completion A) : wiring A :=
  λ st, (c, st).

(** [User.belongsToMany]: the ORM refuses the call with an error, or
    registers the association after the ones it has. *)
Definition belongsToMany
    (refuses : list association → association → option js_error)
    (tgt : value) (opts : BelongsToMany.options) : wiring unit :=
  λ st,
    let call := {| target := tgt; options := opts |} in
    match refuses st call with
    | Some e => (Throw e, st)
    | None => (Return tt, st ++ [call])
    end.

(** [User.associate = (models: any) => { ... }].  The arguments of each
    call are evaluated left to right before the call. *)
Definition associate
    (refuses : list association → association → option js_error)
    (models : value) : wiring unit :=
  category ← evaluate (get_prop models "Category");
  assignment ← evaluate (get_prop models "UserCategoryAssignment");
  _ ← belongsToMany refuses category
        {| BelongsToMany.through :=
             {| BelongsToMany.model := assignment; BelongsToMany.unique := false |};
           BelongsToMany.foreignKey := "userId";
           BelongsToMany.as_ := None |};
  article ← evaluate (get_prop models "Article");
  moderator ← evaluate (get_prop models "ModeratorAssignment");
  _ ← belongsToMany refuses article
        {| BelongsToMany.through :=
             {| BelongsToMany.model := moderator; BelongsToMany.unique := false |};
           BelongsToMany.foreignKey := "userId";
           BelongsToMany.as_ := Some "assignedArticles" |};
  category' ← evaluate (get_prop models "Category");
  assignment' ← evaluate (get_prop models "UserCategoryAssignment");
  belongsToMany refuses category'
        {| BelongsToMany.through :=
             {| BelongsToMany.model := assignment'; BelongsToMany.unique := false |};
           BelongsToMany.foreignKey := "userId";
           BelongsToMany.as_ := Some "assignedCategories" |}.

(** What the registry holds under a name: [undefined] when it holds
    nothing there. *)
Definition registered (models : value) (key : string) : value :=
  match get_prop models key with
  | Return x => x
  | Throw _ => VUndefined
  end.

(** A many-to-many association of the User through a join model, keyed by
    [userId] and not unique. *)
Definition through_join (tgt join : value) (alias : option string) : association :=
  {| target := tgt;
     options :=
       {| BelongsToMany.through :=
            {| BelongsToMany.model := join; BelongsToMany.unique := false |};
          BelongsToMany.foreignKey := "userId";
          BelongsToMany.as_ := alias |} |}.

(** The three calls of [User.associate] on a registry, in order. *)
Definition declared (models : value) : list association :=
  [ through_join (registered models "Category")
                 (registered models "UserCategoryAssignment") None;
    through_join (registered models "Article")
                 (registered models "ModeratorAssignment") (Some "assignedArticles");
    through_join (registered models "Category")
                 (registered models "UserCategoryAssignment") (Some "assignedCategories") ].

(** The names [User.associate] reads from the registry. *)
Definition registry_names : list string :=
  ["Category"; "UserCategoryAssignment"; "Article"; "ModeratorAssignment"].

(** Reading these names from the registry throws nothing. *)
Definition readable (models : value) : Prop :=
  ∀ key, key ∈ registry_names → ∃ x, get_prop models key = Return x.

(** An ORM that refuses nothing. *)
Definition refuses_nothing (st : list association) (c : association)
    : option js_error := None.


Definition full_registry : value :=
  obj [ ("Category", Data (VFun "Category"));
        ("Article", Data (VFun "Article"));
        ("UserCategoryAssignment", Data (VFun "UserCategoryAssignment"));
        ("ModeratorAssignment", Data (VFun "ModeratorAssignment")) ].


(** ** Properties of persisted rows *)

(** The row is in a group that requires an email. *)
Definition human_row (r : row) : Prop :=
  row_group r = Some USER_GROUP_GENERAL ∨ row_group r = Some USER_GROUP_ADMIN.

(** The row holds a non-empty email of the grammar. *)
Definition has_valid_email (is_email : string → bool) (r : row) : Prop :=
  ∃ s, row_email r = Some s ∧ s ≠ "" ∧ is_email s = true.

(** The trace of a history in which each commit is followed at once by
    one call of the notifier. *)
Definition notified (ops : list operation) : list event :=
  flat_map (λ op, [Committed op; UpdateHappened]) ops.

(** How many times the notifier was called, and how many mutations were
    committed, in a trace. *)
Definition notifier_calls (t : list event) : nat :=
  length (List.filter (λ e, match e with UpdateHappened => true | _ => false end) t).
Definition commits (t : list event) : nat :=
  length (List.filter (λ e, match e with Committed _ => true | _ => false end) t).

Definition carol_without_flag : IUserAttributes :=
  {| id := VUndefined; group := VStr "moderator"; email := VUndefined;
     name := VStr "Carol"; isActive := VUndefined; avatarURL := VUndefined;
     extra := VNull |}.

Definition user_instance : gmap string slot :=
  list_to_map [ ("get", Data (VFun "get")); ("group", Getter (VStr "youtube"));
                ("name", Getter (VStr "yt-bot")); ("dataValues", Data (obj [])) ].

Definition article_like : gmap string slot :=
  list_to_map [ ("get", Data (VFun "get")); ("group", Getter (VStr "youtube"));
                ("title", Data (VStr "Not a user")) ].

(** The entry points that write one row: create, update and destroy. *)
Definition single_row (m : mutation) : bool :=
  match m with
  | Create _ | Update _ _ | Destroy _ => true
  | BulkCreate _ | BulkUpdate _ | BulkDestroy _ => false
  end.

(** The states that single-row writes lead to. *)
Inductive reachable_by_rows (is_email : string → bool) : db → Prop :=
  | by_rows_empty : reachable_by_rows is_email empty_db
  | by_rows_exec (m : mutation) (d : db) :
      single_row m = true → reachable_by_rows is_email d →
      reachable_by_rows is_email (exec is_email m d).2.

(** The state after a list of mutations, applied in order. *)
Definition replay (is_email : string → bool) (ms : list mutation) (d : db) : db :=
  fold_left (λ d m, (exec is_email m d).2) ms d.

Definition history : list mutation :=
  [ Create alice; Create bob; BulkCreate [svc_bot; carol_without_flag];
    Update 1 alice_renamed; Destroy 2; BulkDestroy [7%N] ].

(** * Properties *)

Ltac unfold_completion :=
  cbv [mret mbind completion_ret completion_bind] in *.

(** ** [isUser] *)

Lemma isUser_falsy (v : value) : to_boolean v = false → isUser v = Return v.
Proof. intros H. unfold isUser. rewrite H. reflexivity. Qed.

Lemma isUser_truthy (v : value) :
  to_boolean v = true →
  isUser v =
    g ← get_prop v "get";
    if to_boolean g then
      grp ← get_prop v "group"; mret (VBool (to_boolean grp))
    else mret g.
Proof.
  intros H. unfold isUser. rewrite H.
  destruct (get_prop v "get") as [g|e]; simpl; [|reflexivity].
  destruct (to_boolean g); [|reflexivity].
  destruct (get_prop v "group") as [grp|e]; simpl; [|reflexivity].
  by rewrite negb_involutive.
Qed.

Lemma get_prop_quiet (v : value) (key : string) :
  to_boolean v = true → quiet_read v key → ∃ x, get_prop v key = Return x.
Proof.
  destruct v; simpl; try discriminate; eauto.
  intros _ Hq. destruct (props !! key) as [[x|x|e]|] eqn:E; eauto.
  by destruct (Hq e).
Qed.

(** C3, as the code has it.  A truthy result of [isUser] is the Boolean
    [true], and it is returned only for a value that is neither [null]
    nor [undefined], whose [get] property reads as a truthy value and
    whose [group] property reads as a truthy value.  An object with
    [group: "admin"] and a function under [get] gives [true].  For
    [null], for the empty object and for any value without a truthy [get]
    the result is falsy but need not be the Boolean [false]: it is the
    value itself when that is falsy ([null] for [null]), and otherwise
    what reading [get] gave ([undefined] for the empty object). *)
Theorem isUser_contract :
  (∀ v r, isUser v = Return r → to_boolean r = true →
     r = VBool true ∧ v ≠ VNull ∧ v ≠ VUndefined
     ∧ (∃ g, get_prop v "get" = Return g ∧ to_boolean g = true)
     ∧ (∃ grp, get_prop v "group" = Return grp ∧ to_boolean grp = true))
  ∧ (∀ fn, isUser (obj [("group", Data (VStr "admin")); ("get", Data (VFun fn))])
           = Return (VBool true))
  ∧ isUser VNull = Return VNull
  ∧ isUser (obj []) = Return VUndefined
  ∧ (∀ v, to_boolean v = false → isUser v = Return v)
  ∧ (∀ v g, to_boolean v = true → get_prop v "get" = Return g →
       to_boolean g = false → isUser v = Return g).
Proof.
  split; [|split; [|split; [|split; [|split]]]].
  - intros v r Hret Hr.
    destruct (to_boolean v) eqn:Hv.
    + rewrite (isUser_truthy v Hv) in Hret.
      destruct (get_prop v "get") as [g|e] eqn:Hg; simpl in Hret; [|discriminate].
      destruct (to_boolean g) eqn:Htg.
      * destruct (get_prop v "group") as [grp|e] eqn:Hgrp; simpl in Hret; [|discriminate].
        unfold_completion. injection Hret as <-. simpl in Hr. rewrite Hr.
        repeat split; eauto; intros ->; discriminate.
      * unfold_completion. injection Hret as <-. congruence.
    + rewrite (isUser_falsy v Hv) in Hret. injection Hret as <-. congruence.
  - intros fn. rewrite isUser_truthy by reflexivity.
    unfold obj, get_prop. simpl list_to_map.
    rewrite (lookup_insert_ne _ "group" "get") by done.
    rewrite lookup_insert_eq. simpl.
    rewrite lookup_insert_eq. reflexivity.
  - reflexivity.
  - vm_compute. reflexivity.
  - apply isUser_falsy.
  - intros v g Hv Hg Hf. rewrite (isUser_truthy v Hv), Hg. simpl. by rewrite Hf.
Qed.

Lemma isUser_contract_witness :
  isUser (obj [("group", Data (VStr "moderator")); ("get", Getter (VFun "get"))])
    = Return (VBool true)
  ∧ (∃ g, get_prop (obj [("group", Data (VStr "moderator")); ("get", Getter (VFun "get"))]) "get"
          = Return g ∧ to_boolean g = true)
  ∧ isUser (VNum 0) = Return (VNum 0)
  ∧ isUser (VStr "admin") = Return VUndefined.
Proof.
  destruct isUser_contract as (Honly & _ & _ & _ & Hfalsy & Hnoget).
  split; [vm_compute; reflexivity|].
  split.
  - refine (proj1 (proj2 (proj2 (proj2
      (Honly (obj [("group", Data (VStr "moderator")); ("get", Getter (VFun "get"))])
             (VBool true) _ _))))); vm_compute; reflexivity.
  - split.
    + apply (Hfalsy (VNum 0)). reflexivity.
    + apply (Hnoget (VStr "admin") VUndefined); reflexivity.
Defined.

(** C3 as stated fails: for [null] the result is [null] itself, not the
    Boolean [false]; for the empty object it is [undefined]. *)
Lemma isUser_null_not_false :
  isUser VNull = Return VNull ∧ isUser VNull ≠ Return (VBool false)
  ∧ isUser (obj []) = Return VUndefined ∧ isUser (obj []) ≠ Return (VBool false).
Proof.
  split; [reflexivity|]. split; [discriminate|].
  assert (H : isUser (obj []) = Return VUndefined) by (vm_compute; reflexivity).
  split; [exact H|]. rewrite H. discriminate.
Qed.

(** C8, as the code has it.  [isUser] returns a result, without raising,
    for every value whose [get] and [group] properties are not accessors
    with a throwing getter: that covers [null] and [undefined],
    primitives, functions, and objects holding plain data.  A falsy value,
    [null] and [undefined] among them, is returned as it is before any
    property of it is read (reading one would throw). *)
Theorem isUser_returns :
  (∀ v, quiet_read v "get" → quiet_read v "group" → ∃ r, isUser v = Return r)
  ∧ (∀ v, to_boolean v = false → isUser v = Return v)
  ∧ isUser VNull = Return VNull
  ∧ isUser VUndefined = Return VUndefined
  ∧ (∀ key, ∃ e, get_prop VNull key = Throw e)
  ∧ (∀ key, ∃ e, get_prop VUndefined key = Throw e).
Proof.
  split; [|split; [|split; [|split; [|split]]]];
    [| apply isUser_falsy | reflexivity | reflexivity
     | intros key; eexists; reflexivity | intros key; eexists; reflexivity].
  intros v Hget Hgroup.
  destruct (to_boolean v) eqn:Hv.
  - rewrite (isUser_truthy v Hv).
    destruct (get_prop_quiet v "get" Hv Hget) as [g ->]. simpl.
    destruct (to_boolean g); [|eauto].
    destruct (get_prop_quiet v "group" Hv Hgroup) as [grp ->]. simpl. eauto.
  - rewrite (isUser_falsy v Hv). eauto.
Qed.

Lemma isUser_returns_witness :
  (∃ r, isUser (obj [("get", Getter (VStr "x")); ("group", Data VNaN)]) = Return r)
  ∧ isUser (VStr "") = Return (VStr "").
Proof.
  destruct isUser_returns as (Hquiet & Hfalsy & _).
  split.
  - apply (Hquiet (obj [("get", Getter (VStr "x")); ("group", Data VNaN)]));
      intros e; vm_compute; discriminate.
  - apply (Hfalsy (VStr "")). reflexivity.
Defined.

(** C8 as stated fails: reading [get] from an object whose [get] is an
    accessor with a throwing getter raises, and [isUser] with it. *)
Lemma isUser_throws :
  isUser (obj [("get", ThrowingGetter (Error "boom"))]) = Throw (Error "boom")
  ∧ ¬ (∀ v, ∃ r, isUser v = Return r).
Proof.
  assert (H : isUser (obj [("get", ThrowingGetter (Error "boom"))]) = Throw (Error "boom"))
    by (vm_compute; reflexivity).
  split; [exact H|].
  intros Hall. destruct (Hall (obj [("get", ThrowingGetter (Error "boom"))])) as [r Hr].
  rewrite H in Hr. discriminate.
Qed.

Section Properties.

Context (is_email : string → bool).

(** ** [requireEmailForHumans] *)

(** The validator as a function of the two fields it reads; the
    instance is handed back as it was. *)
Lemma requireEmailForHumans_run (u : IUserAttributes) :
  requireEmailForHumans is_email u =
    (if strict_eq_string (group u) USER_GROUP_GENERAL
        || strict_eq_string (group u) USER_GROUP_ADMIN
     then match Joi.error (Joi.validate is_email (email u)
                             (Joi.required (Joi.email Joi.string))
                             {| Joi.convert := false |}) with
          | Some _ => Throw the_error
          | None => Return tt
          end
     else Return tt, u).
Proof.
  unfold requireEmailForHumans, read, throw.
  cbv [mbind method_bind mret method_ret].
  destruct (strict_eq_string (group u) USER_GROUP_GENERAL
            || strict_eq_string (group u) USER_GROUP_ADMIN); [|reflexivity].
  destruct (Joi.error _); reflexivity.
Qed.

Lemma human_test (u : IUserAttributes) :
  human u →
  strict_eq_string (group u) USER_GROUP_GENERAL
    || strict_eq_string (group u) USER_GROUP_ADMIN = true.
Proof. intros [H|H]; rewrite H; reflexivity. Qed.

Lemma strict_eq_string_false (v : value) (k : string) :
  v ≠ VStr k → strict_eq_string v k = false.
Proof.
  destruct v; simpl; try reflexivity.
  intros H. apply String.eqb_neq. congruence.
Qed.

Lemma joi_rejects_invalid (v : value) :
  invalid_email is_email v →
  ∃ e, Joi.error (Joi.validate is_email v (Joi.required (Joi.email Joi.string))
                               {| Joi.convert := false |}) = Some e.
Proof.
  intros [->|[->|(s & -> & Hs)]]; simpl; eauto.
  destruct (String.eqb s ""); eauto. rewrite Hs. simpl. eauto.
Qed.

Lemma joi_rejects_non_string (v : value) (o : Joi.options) :
  (∀ s, v ≠ VStr s) →
  ∃ e, Joi.error (Joi.validate is_email v (Joi.required (Joi.email Joi.string)) o)
       = Some e.
Proof. destruct v; simpl; eauto. intros H. by destruct (H s). Qed.

Lemma validators_run (u : IUserAttributes) :
  run_validators (validate is_email) u = requireEmailForHumans is_email u.
Proof.
  simpl. destruct (requireEmailForHumans is_email u) as [[[]|e] u'];
    reflexivity.
Qed.

(** C2.  For a candidate whose group is neither [general] nor [admin]
    (so [service], [youtube] and [moderator]), the validator does
    nothing: it returns without an error whatever the email is, [null]
    included, and the validation phase of a write passes. *)
Theorem no_email_required_for_other_groups (u : IUserAttributes) :
  group u ≠ VStr USER_GROUP_GENERAL →
  group u ≠ VStr USER_GROUP_ADMIN →
  requireEmailForHumans is_email u = (Return tt, u)
  ∧ run_validators (validate is_email) u = (Return tt, u).
Proof.
  intros Hg Ha.
  assert (H : requireEmailForHumans is_email u = (Return tt, u)).
  { rewrite requireEmailForHumans_run.
    rewrite (strict_eq_string_false _ _ Hg), (strict_eq_string_false _ _ Ha).
    reflexivity. }
  split; [exact H|]. rewrite validators_run. exact H.
Qed.

(** C9.  Two candidates with the same group and the same email get the
    same outcome from the validator, whatever their other fields are,
    and the validator hands each instance back with no field changed. *)
Theorem validator_reads_group_and_email_only (u1 u2 : IUserAttributes) :
  group u1 = group u2 →
  email u1 = email u2 →
  (requireEmailForHumans is_email u1).1 = (requireEmailForHumans is_email u2).1
  ∧ (requireEmailForHumans is_email u1).2 = u1
  ∧ (requireEmailForHumans is_email u2).2 = u2.
Proof.
  intros Hg He. rewrite !requireEmailForHumans_run. simpl.
  rewrite Hg, He. auto.
Qed.

(** C6.  For a candidate of group [general] or [admin] the email is
    checked as it is, with conversion switched off: a value that is not
    a string is rejected with the validator's error, even when some
    rendering of it as a string would be in the grammar. *)
Theorem non_string_email_rejected
    (u : IUserAttributes) (render : value → string) :
  human u →
  (∀ s, email u ≠ VStr s) →
  is_email (render (email u)) = true →
  requireEmailForHumans is_email u
    = (Throw (Error "Email address required for human users"), u)
  ∧ is_Some (Joi.error (Joi.validate is_email (email u)
               (Joi.required (Joi.email Joi.string)) {| Joi.convert := false |})).
Proof.
  intros Hh Hns _. rewrite requireEmailForHumans_run, (human_test u Hh).
  destruct (joi_rejects_non_string (email u) {| Joi.convert := false |} Hns)
    as [e ->].
  split; [reflexivity|eauto].
Qed.

(** What the validator accepts from a human user: exactly a non-empty
    string of the grammar. *)
Lemma human_accepted_iff (u : IUserAttributes) :
  human u →
  requireEmailForHumans is_email u = (Return tt, u)
  ↔ ∃ s, email u = VStr s ∧ s ≠ "" ∧ is_email s = true.
Proof.
  intros Hh. rewrite requireEmailForHumans_run, (human_test u Hh). split.
  - destruct (email u) as [| | | | |s| |]; simpl; try discriminate.
    destruct (String.eqb_spec s ""); [discriminate|].
    destruct (is_email s) eqn:Hs; [|discriminate]. eauto.
  - intros (s & -> & Hne & Hs). simpl.
    destruct (String.eqb_spec s ""); [done|]. by rewrite Hs.
Qed.

(** ** Hooks and the entry points of the storage layer *)

Lemma run_hooks_before (op : operation) (t : list event) :
  run_hooks hooks (before_hook op) t = t.
Proof. destruct op; reflexivity. Qed.

Lemma run_hooks_after (op : operation) (t : list event) :
  run_hooks hooks (after_hook op) t = t ++ [UpdateHappened].
Proof. destruct op; reflexivity. Qed.

Lemma exec_run (m : mutation) (d : db) :
  exec is_email m d =
    match apply_mutation is_email m (table d, next_id d) with
    | Rejected r => (Rejected r, d)
    | Ok s =>
        (Ok tt, {| table := s.1; next_id := s.2;
                   trace := trace d ++ [Committed (operation_of m); UpdateHappened] |})
    end.
Proof.
  unfold exec. rewrite run_hooks_before, run_hooks_after.
  destruct (apply_mutation is_email m (table d, next_id d)).
  - by rewrite <- app_assoc.
  - by destruct d.
Qed.

(** C4.  A mutation of the users table that the storage layer accepts
    (create, update, destroy or a bulk variant) adds to the trace its
    commit and, right after it, one call of the update notifier, and
    nothing else; a rejected mutation leaves the state and the trace as
    they were, so the notifier is not called for it. *)
Theorem update_notifier_once (m : mutation) (d : db) :
  (∀ d', exec is_email m d = (Ok tt, d') →
     trace d' = trace d ++ [Committed (operation_of m); UpdateHappened])
  ∧ (∀ r d', exec is_email m d = (Rejected r, d') → d' = d).
Proof.
  rewrite exec_run.
  destruct (apply_mutation is_email m (table d, next_id d)) as [s|r0]; split;
    intros; simplify_eq; reflexivity.
Qed.

(** ** Rejected candidates *)

Lemma validator_rejects (u : IUserAttributes) :
  human u → invalid_email is_email (email u) →
  requireEmailForHumans is_email u = (Throw the_error, u).
Proof.
  intros Hh Hbad. rewrite requireEmailForHumans_run, (human_test u Hh).
  destruct (joi_rejects_invalid (email u) Hbad) as [e ->]. reflexivity.
Qed.

Lemma checked_row_invalid (t : gmap N row) (rid : N) (u : IUserAttributes) :
  human u → invalid_email is_email (email u) →
  checked_row is_email t rid u = Rejected (ValidationError the_error).
Proof.
  intros Hh Hbad. unfold checked_row.
  rewrite validators_run, (validator_rejects u Hh Hbad). reflexivity.
Qed.

Lemma batch_rejected {A : Type}
    (step : A → gmap N row * N → outcome (gmap N row * N))
    (xs : list A) (x : A) :
  x ∈ xs → (∀ s, ∃ r, step x s = Rejected r) →
  ∀ s, ∃ r, batch step xs s = Rejected r.
Proof.
  intros Hin Hx. induction xs as [|a xs IH]; intros s.
  - by apply elem_of_nil in Hin.
  - simpl. apply elem_of_cons in Hin as [<-|Hin].
    + destruct (Hx s) as [r ->]. simpl. eauto.
    + destruct (step a s) as [s'|r]; simpl; eauto.
Qed.

(** C1.  For a candidate whose group is [general] or [admin] and whose
    email is missing, null, or a string outside the email grammar, the
    validator raises the error with the message "Email address required
    for human users" and leaves the instance as it was.  A create or an
    update of that candidate is rejected with that error and the state
    of the storage layer is unchanged: no row is persisted; a bulk
    create or bulk update containing it is rejected as a whole, the state
    unchanged too. *)
Theorem human_without_email_rejected (u : IUserAttributes) :
  human u →
  invalid_email is_email (email u) →
  requireEmailForHumans is_email u
    = (Throw (Error "Email address required for human users"), u)
  ∧ (∀ d, exec is_email (Create u) d
          = (Rejected (ValidationError
               (Error "Email address required for human users")), d))
  ∧ (∀ d rid, exec is_email (Update rid u) d
          = (Rejected (ValidationError
               (Error "Email address required for human users")), d))
  ∧ (∀ d us, u ∈ us → ∃ r, exec is_email (BulkCreate us) d = (Rejected r, d))
  ∧ (∀ d ups rid, (rid, u) ∈ ups →
       ∃ r, exec is_email (BulkUpdate ups) d = (Rejected r, d)).
Proof.
  intros Hh Hbad.
  split; [exact (validator_rejects u Hh Hbad)|].
  split; [|split; [|split]].
  - intros d. rewrite exec_run. simpl. unfold insert_one.
    rewrite (checked_row_invalid _ _ u Hh Hbad). reflexivity.
  - intros d rid. rewrite exec_run. simpl. unfold update_one.
    rewrite (checked_row_invalid _ _ u Hh Hbad). reflexivity.
  - intros d us Hin. rewrite exec_run. simpl.
    destruct (batch_rejected (insert_one is_email) us u Hin) with (s := (table d, next_id d))
      as [r ->]; [|eauto].
    intros s. unfold insert_one.
    rewrite (checked_row_invalid _ _ u Hh Hbad). simpl. eauto.
  - intros d ups rid Hin. rewrite exec_run. simpl.
    destruct (batch_rejected (λ p, update_one is_email p.1 p.2) ups (rid, u) Hin)
      with (s := (table d, next_id d)) as [r ->]; [|eauto].
    intros s. unfold update_one. simpl.
    rewrite (checked_row_invalid _ _ u Hh Hbad). simpl. eauto.
Qed.

(** ** The unique index *)

Lemma existsb_map_to_list (t : gmap N row) (f : N * row → bool) :
  existsb f (map_to_list t) = true ↔ ∃ i r, t !! i = Some r ∧ f (i, r) = true.
Proof.
  rewrite existsb_exists. split.
  - intros [[i r] [Hin Hf]]. exists i, r. split; [|done].
    by apply elem_of_map_to_list, list_elem_of_In.
  - intros (i & r & Hl & Hf). exists (i, r). split; [|done].
    by apply list_elem_of_In, elem_of_map_to_list.
Qed.

Lemma existsb_pointwise {A : Type} (f g : A → bool) (l : list A) :
  (∀ x, f x = g x) → existsb f l = existsb g l.
Proof. intros H. induction l as [|a l IH]; simpl; [done|]. by rewrite H, IH. Qed.

Lemma existsb_never {A : Type} (f : A → bool) (l : list A) :
  (∀ x, f x = false) → existsb f l = false.
Proof. intros H. induction l as [|a l IH]; simpl; [done|]. by rewrite H, IH. Qed.

Lemma collide_not_unique (ix : index) (r1 r2 : row) :
  unique ix = false → collide ix r1 r2 = false.
Proof. unfold collide. by intros ->. Qed.

Lemma collide_email_group (r1 r2 : row) :
  collide email_group_index r1 r2 = same_pair r1 r2.
Proof.
  unfold collide, same_key, same_pair, email_group. simpl.
  destruct r1 as [? [g1|] ? [e1|] ? ? ?], r2 as [? g2 ? e2 ? ? ?]; simpl;
    repeat case_bool_decide; try reflexivity; exfalso; intuition congruence.
Qed.

Lemma same_pair_true (r1 r2 : row) :
  row_email r1 ≠ None → row_group r1 ≠ None →
  email_group r1 = email_group r2 → same_pair r1 r2 = true.
Proof. intros. unfold same_pair. by rewrite bool_decide_eq_true_2. Qed.

Lemma same_pair_no_email (r1 r2 : row) :
  row_email r1 = None → same_pair r1 r2 = false.
Proof.
  intros H. unfold same_pair. apply bool_decide_eq_false_2.
  by intros [Hemail _].
Qed.

Lemma clashes_not_unique (t : gmap N row) (r : row) (ix : index) :
  unique ix = false → clashes t r ix = false.
Proof.
  intros H. apply existsb_never. intros p.
  rewrite (collide_not_unique _ _ _ H). apply andb_false_r.
Qed.

Lemma clashes_email_group (t : gmap N row) (r : row) :
  clashes t r email_group_index =
    existsb (λ p : N * row,
               negb (p.1 =? row_id r)%N && same_pair r p.2)
            (map_to_list t).
Proof.
  apply existsb_pointwise. intros p. by rewrite collide_email_group.
Qed.

(** Among the declared indexes only the one on (email, group) can be
    violated. *)
Lemma violated_indexes (t : gmap N row) (r : row) :
  violated indexes t r =
    if existsb (λ p : N * row,
                  negb (p.1 =? row_id r)%N && same_pair r p.2)
               (map_to_list t)
    then Some email_group_index else None.
Proof.
  unfold violated, indexes. cbn [List.find].
  rewrite !clashes_not_unique by done.
  fold email_group_index. rewrite clashes_email_group.
  reflexivity.
Qed.

Lemma to_row_fields (rid : N) (u : IUserAttributes) (r : row) :
  to_row rid u = Ok r → row_id r = rid ∧ row_extra r = extra u.
Proof.
  unfold to_row. cbv [mbind outcome_bind mret outcome_ret].
  repeat case_match; intros; simplify_eq; done.
Qed.

Lemma to_row_group (rid : N) (u : IUserAttributes) (r : row) :
  to_row rid u = Ok r → row_group r ≠ None.
Proof.
  unfold to_row. cbv [mbind outcome_bind mret outcome_ret].
  destruct (store_text "group" Attributes.group (group u)) as [[g|]|] eqn:Hg.
  - repeat case_match; intros; simplify_eq; done.
  - unfold store_text in Hg. simpl in Hg. repeat case_match; simplify_eq.
  - discriminate.
Qed.

Lemma checked_row_run (t : gmap N row) (rid : N) (u : IUserAttributes) :
  checked_row is_email t rid u =
    match (requireEmailForHumans is_email u).1 with
    | Throw e => Rejected (ValidationError e)
    | Return _ =>
        r ← to_row rid u;
        match violated indexes t r with
        | Some ix => Rejected (UniqueConstraintError (fields ix))
        | None => Ok r
        end
    end.
Proof.
  unfold checked_row. rewrite validators_run, requireEmailForHumans_run.
  cbn [fst].
  destruct (strict_eq_string (group u) USER_GROUP_GENERAL
            || strict_eq_string (group u) USER_GROUP_ADMIN);
    [destruct (Joi.error _)|]; reflexivity.
Qed.

Lemma checked_row_Ok (t : gmap N row) (rid : N) (u : IUserAttributes) (r : row) :
  checked_row is_email t rid u = Ok r →
  row_id r = rid ∧ row_extra r = extra u
  ∧ ∀ i r', t !! i = Some r' → i ≠ rid → row_email r ≠ None →
      email_group r ≠ email_group r'.
Proof.
  rewrite checked_row_run.
  destruct ((requireEmailForHumans is_email u).1); [|discriminate].
  destruct (to_row rid u) as [r0|] eqn:Hrow; cbn [mbind outcome_bind];
    [|discriminate].
  rewrite violated_indexes.
  destruct (existsb _ _) eqn:Hex; [discriminate|]. intros [= ->].
  destruct (to_row_fields _ _ _ Hrow) as [Hid Hextra].
  split; [done|]. split; [done|].
  intros i r' Hl Hne Hemail Heq.
  assert (Htrue : existsb (λ p : N * row,
                     negb (p.1 =? row_id r)%N && same_pair r p.2)
                    (map_to_list t) = true); [|congruence].
  apply existsb_map_to_list. exists i, r'. split; [done|]. simpl.
  rewrite (same_pair_true r r' Hemail (to_row_group _ _ _ Hrow) Heq), andb_true_r.
  apply negb_true_iff, N.eqb_neq. congruence.
Qed.

Lemma checked_row_collision (t : gmap N row) (rid : N) (u : IUserAttributes)
    (r' : row) (i : N) (r : row) :
  to_row rid u = Ok r' → t !! i = Some r → i ≠ rid →
  row_email r' ≠ None → email_group r' = email_group r →
  checked_row is_email t rid u = Rejected (UniqueConstraintError ["email"; "group"])
  ∨ ∃ e, checked_row is_email t rid u = Rejected (ValidationError e).
Proof.
  intros Hrow Hl Hne Hemail Heq. rewrite checked_row_run.
  destruct ((requireEmailForHumans is_email u).1); [|eauto].
  left. rewrite Hrow. cbn [mbind outcome_bind]. rewrite violated_indexes.
  destruct (to_row_fields _ _ _ Hrow) as [Hid _].
  assert (Htrue : existsb (λ p : N * row,
                     negb (p.1 =? row_id r')%N && same_pair r' p.2)
                    (map_to_list t) = true).
  { apply existsb_map_to_list. exists i, r. split; [done|]. simpl.
    rewrite (same_pair_true r' r Hemail (to_row_group _ _ _ Hrow) Heq), andb_true_r.
    apply negb_true_iff, N.eqb_neq. congruence. }
  rewrite Htrue. reflexivity.
Qed.

Lemma checked_row_no_email (t : gmap N row) (rid : N) (u : IUserAttributes)
    (r : row) (on : list string) :
  to_row rid u = Ok r → row_email r = None →
  checked_row is_email t rid u ≠ Rejected (UniqueConstraintError on).
Proof.
  intros Hrow Hnone. rewrite checked_row_run.
  destruct ((requireEmailForHumans is_email u).1); [|discriminate].
  rewrite Hrow. cbn [mbind outcome_bind]. rewrite violated_indexes.
  rewrite existsb_never; [discriminate|].
  intros p. rewrite (same_pair_no_email r p.2 Hnone). apply andb_false_r.
Qed.

(** ** The invariant of the users table *)

Lemma insert_one_consistent (u : IUserAttributes) (s s' : gmap N row * N) :
  insert_one is_email u s = Ok s' → consistent s → consistent s'.
Proof.
  unfold insert_one. destruct s as [t n]. cbn [fst snd].
  destruct (checked_row is_email t n u) as [r|] eqn:Hc; [|discriminate].
  intros [= <-] [Hk Hu].
  apply checked_row_Ok in Hc as (Hid & _ & Hfresh).
  split; cbn [fst snd].
  - intros i r'. rewrite lookup_insert_Some. intros [[<- <-]|[Hne Hl]].
    + split; [done|]. apply N.lt_succ_diag_r.
    + destruct (Hk _ _ Hl). split; [done|]. by apply N.lt_lt_succ_r.
  - intros i j r1 r2. rewrite !lookup_insert_Some.
    intros [[<- <-]|[Hi H1]] [[<- <-]|[Hj H2]] Hij Hemail; try done.
    + by apply (Hfresh j).
    + intros Heq. apply (Hfresh i r1); [done|done| |done].
      unfold email_group in Heq. by injection Heq as <- _.
    + by apply (Hu i j).
Qed.

Lemma update_one_consistent (rid : N) (u : IUserAttributes)
    (s s' : gmap N row * N) :
  update_one is_email rid u s = Ok s' → consistent s → consistent s'.
Proof.
  unfold update_one. destruct s as [t n]. cbn [fst snd].
  destruct (checked_row is_email t rid u) as [r|] eqn:Hc; [|discriminate].
  cbn [mbind outcome_bind].
  destruct (t !! rid) as [old|] eqn:Hold; [|discriminate].
  intros [= <-] [Hk Hu].
  apply checked_row_Ok in Hc as (Hid & _ & Hfresh).
  split; cbn [fst snd].
  - intros i r'. rewrite lookup_insert_Some. intros [[<- <-]|[Hne Hl]].
    + split; [done|]. by destruct (Hk _ _ Hold).
    + by apply Hk.
  - intros i j r1 r2. rewrite !lookup_insert_Some.
    intros [[<- <-]|[Hi H1]] [[<- <-]|[Hj H2]] Hij Hemail; try done.
    + by apply (Hfresh j).
    + intros Heq. apply (Hfresh i r1); [done|done| |done].
      unfold email_group in Heq. by injection Heq as <- _.
    + by apply (Hu i j).
Qed.

Lemma delete_one_consistent (rid : N) (s s' : gmap N row * N) :
  delete_one rid s = Ok s' → consistent s → consistent s'.
Proof.
  unfold delete_one. destruct s as [t n]. cbn [fst snd].
  destruct (t !! rid); [|discriminate].
  intros [= <-] [Hk Hu]. split; cbn [fst snd].
  - intros i r'. rewrite lookup_delete_Some. intros [_ Hl]. by apply Hk.
  - intros i j r1 r2. rewrite !lookup_delete_Some.
    intros [_ H1] [_ H2]. by apply Hu.
Qed.

Lemma batch_consistent {A : Type}
    (step : A → gmap N row * N → outcome (gmap N row * N)) (xs : list A) :
  (∀ x s s', step x s = Ok s' → consistent s → consistent s') →
  ∀ s s', batch step xs s = Ok s' → consistent s → consistent s'.
Proof.
  intros Hstep. induction xs as [|x xs IH]; intros s s'; simpl.
  - by intros [= <-].
  - destruct (step x s) as [s1|] eqn:H1; [|discriminate].
    cbn [mbind outcome_bind]. intros Hrest Hs.
    apply (IH s1 s'); [done|]. by apply (Hstep x s).
Qed.

Lemma apply_mutation_consistent (m : mutation) (s s' : gmap N row * N) :
  apply_mutation is_email m s = Ok s' → consistent s → consistent s'.
Proof.
  destruct m; simpl.
  - apply insert_one_consistent.
  - apply update_one_consistent.
  - apply delete_one_consistent.
  - apply batch_consistent. apply insert_one_consistent.
  - apply batch_consistent. intros [rid u]. apply update_one_consistent.
  - apply batch_consistent. apply delete_one_consistent.
Qed.

Lemma reachable_consistent (d : db) :
  reachable is_email d → consistent (table d, next_id d).
Proof.
  induction 1 as [|m d Hd IH].
  - split; intros i; intros *; cbn; by rewrite lookup_empty.
  - rewrite exec_run.
    destruct (apply_mutation is_email m (table d, next_id d)) as [[t n]|]
      eqn:Hm; [|done].
    cbn. by apply (apply_mutation_consistent m _ _ Hm).
Qed.

(** C5, as the code has it.  In every state that writes can lead to, two
    distinct persisted rows differ in their (email, group) pair when one
    of them has an email.  A create whose candidate would be stored with
    an email and the pair of a persisted row, and an update that would
    give a row an email and the pair of another persisted row, are
    rejected (on the unique index over email and group, unless validation
    already rejected them) and the state is unchanged.  A candidate stored
    without an email is never rejected on the unique index: the email is
    nullable and NULL cells do not collide. *)
Theorem email_group_pairs_unique (d : db) :
  reachable is_email d →
  pairs_unique (table d)
  ∧ (∀ u i r r', table d !! i = Some r → to_row (next_id d) u = Ok r' →
       row_email r' ≠ None → email_group r' = email_group r →
       ∃ rej, exec is_email (Create u) d = (Rejected rej, d)
         ∧ (rej = UniqueConstraintError ["email"; "group"]
            ∨ ∃ e, rej = ValidationError e))
  ∧ (∀ u rid i r r', table d !! i = Some r → i ≠ rid →
       to_row rid u = Ok r' → row_email r' ≠ None →
       email_group r' = email_group r →
       ∃ rej, exec is_email (Update rid u) d = (Rejected rej, d)
         ∧ (rej = UniqueConstraintError ["email"; "group"]
            ∨ ∃ e, rej = ValidationError e))
  ∧ (∀ u r' on, to_row (next_id d) u = Ok r' → row_email r' = None →
       (exec is_email (Create u) d).1 ≠ Rejected (UniqueConstraintError on)).
Proof.
  intros Hreach. destruct (reachable_consistent d Hreach) as [Hk Hu].
  cbn [fst snd] in *. split; [exact Hu|]. split; [|split].
  - intros u i r r' Hl Hrow Hemail Heq. rewrite exec_run. simpl.
    unfold insert_one. cbn [fst snd].
    assert (Hne : i ≠ next_id d).
    { destruct (Hk _ _ Hl) as [_ Hlt]. intros ->. by apply N.lt_irrefl in Hlt. }
    destruct (checked_row_collision (table d) (next_id d) u r' i r
                Hrow Hl Hne Hemail Heq) as [->|[e ->]]; simpl; eauto.
  - intros u rid i r r' Hl Hne Hrow Hemail Heq. rewrite exec_run. simpl.
    unfold update_one. cbn [fst snd].
    destruct (checked_row_collision (table d) rid u r' i r
                Hrow Hl Hne Hemail Heq) as [->|[e ->]]; simpl; eauto.
  - intros u r' on Hrow Hnone. rewrite exec_run. simpl.
    unfold insert_one. cbn [fst snd].
    pose proof (checked_row_no_email (table d) (next_id d) u r' on Hrow Hnone) as H.
    destruct (checked_row is_email (table d) (next_id d) u) as [r0|rej];
      cbn [mbind outcome_bind mret outcome_ret fst]; congruence.
Qed.


(** ** The [extra] payload *)

Lemma to_row_alike (rid : N) (u1 u2 : IUserAttributes) :
  same_but_extra u1 u2 →
  alike_outcome (λ r1 r2, forget_extra r1 = forget_extra r2)
                (to_row rid u1) (to_row rid u2).
Proof.
  intros (_ & Hg & He & Hn & Ha & Hav). unfold to_row.
  rewrite Hg, He, Hn, Ha, Hav.
  cbv [mbind outcome_bind mret outcome_ret alike_outcome].
  repeat case_match; simplify_eq; done.
Qed.

Lemma lookup_alike (t1 t2 : gmap N row) (i : N) (r1 : row) :
  forget_extra <$> t1 = forget_extra <$> t2 → t1 !! i = Some r1 →
  ∃ r2, t2 !! i = Some r2 ∧ forget_extra r1 = forget_extra r2.
Proof.
  intros Ht Hl.
  assert (H : (forget_extra <$> t2) !! i = Some (forget_extra r1)).
  { rewrite <- Ht, lookup_fmap, Hl. reflexivity. }
  rewrite lookup_fmap in H. destruct (t2 !! i) as [r2|]; [|discriminate].
  simpl in H. exists r2. split; [reflexivity|]. congruence.
Qed.

Lemma email_group_forget (r1 r2 : row) :
  forget_extra r1 = forget_extra r2 →
  row_id r1 = row_id r2 ∧ email_group r1 = email_group r2.
Proof. intros [= ? ? ? ? ? ?]. unfold email_group. split; congruence. Qed.

Lemma same_pair_forget (r1 r2 p1 p2 : row) :
  forget_extra r1 = forget_extra r2 → forget_extra p1 = forget_extra p2 →
  same_pair r1 p1 = same_pair r2 p2.
Proof.
  intros Hr Hp.
  change (same_pair (forget_extra r1) (forget_extra p1)
          = same_pair (forget_extra r2) (forget_extra p2)).
  by rewrite Hr, Hp.
Qed.

Lemma violated_alike (t1 t2 : gmap N row) (r1 r2 : row) :
  forget_extra <$> t1 = forget_extra <$> t2 →
  forget_extra r1 = forget_extra r2 →
  violated indexes t1 r1 = violated indexes t2 r2.
Proof.
  intros Ht Hr. rewrite !violated_indexes.
  assert (Hiff : ∀ ta tb ra rb,
    forget_extra <$> ta = forget_extra <$> tb →
    forget_extra ra = forget_extra rb →
    existsb (λ p : N * row, negb (p.1 =? row_id ra)%N && same_pair ra p.2)
            (map_to_list ta) = true →
    existsb (λ p : N * row, negb (p.1 =? row_id rb)%N && same_pair rb p.2)
            (map_to_list tb) = true).
  { intros ta tb ra rb Hab Hrab. rewrite !existsb_map_to_list.
    intros (i & pa & Hl & Hf).
    destruct (lookup_alike ta tb i pa Hab Hl) as (pb & Hlb & Hfg).
    exists i, pb. split; [done|]. cbn [fst snd] in *.
    rewrite <- (same_pair_forget ra rb pa pb Hrab Hfg).
    by destruct (email_group_forget _ _ Hrab) as [<- _]. }
  rewrite (eq_true_iff_eq _ _
             (conj (Hiff t1 t2 r1 r2 Ht Hr) (Hiff t2 t1 r2 r1 (eq_sym Ht) (eq_sym Hr)))).
  reflexivity.
Qed.

Lemma checked_row_alike (t1 t2 : gmap N row) (rid : N) (u1 u2 : IUserAttributes) :
  forget_extra <$> t1 = forget_extra <$> t2 → same_but_extra u1 u2 →
  alike_outcome (λ r1 r2, forget_extra r1 = forget_extra r2)
                (checked_row is_email t1 rid u1) (checked_row is_email t2 rid u2).
Proof.
  intros Ht Hu. rewrite !checked_row_run, !requireEmailForHumans_run.
  cbn [fst]. pose proof (to_row_alike rid u1 u2 Hu) as Hrow.
  destruct Hu as (_ & -> & -> & _).
  destruct (if _ : bool then _ else _) as [[]|e]; [|reflexivity].
  destruct (to_row rid u1) as [r1|a], (to_row rid u2) as [r2|b];
    cbn [alike_outcome mbind outcome_bind] in *; try done.
  rewrite (violated_alike t1 t2 r1 r2 Ht Hrow).
  by destruct (violated indexes t2 r2).
Qed.

Lemma insert_one_alike (u1 u2 : IUserAttributes) (s1 s2 : gmap N row * N) :
  same_but_extra u1 u2 → alike s1 s2 →
  alike_outcome alike (insert_one is_email u1 s1) (insert_one is_email u2 s2).
Proof.
  intros Hu [Ht Hn]. unfold insert_one. rewrite Hn.
  pose proof (checked_row_alike s1.1 s2.1 s2.2 u1 u2 Ht Hu) as Hc.
  destruct (checked_row is_email s1.1 s2.2 u1) as [r1|a],
           (checked_row is_email s2.1 s2.2 u2) as [r2|b];
    cbn [alike_outcome mbind outcome_bind mret outcome_ret] in *; try done.
  split; cbn [fst snd]; [|done]. by rewrite !fmap_insert, Ht, Hc.
Qed.

Lemma update_one_alike (rid : N) (u1 u2 : IUserAttributes)
    (s1 s2 : gmap N row * N) :
  same_but_extra u1 u2 → alike s1 s2 →
  alike_outcome alike (update_one is_email rid u1 s1) (update_one is_email rid u2 s2).
Proof.
  intros Hu [Ht Hn]. unfold update_one.
  pose proof (checked_row_alike s1.1 s2.1 rid u1 u2 Ht Hu) as Hc.
  destruct (checked_row is_email s1.1 rid u1) as [r1|a],
           (checked_row is_email s2.1 rid u2) as [r2|b];
    cbn [alike_outcome mbind outcome_bind] in *; try done.
  assert (Hl : forget_extra <$> s1.1 !! rid = forget_extra <$> s2.1 !! rid)
    by (by rewrite <- !lookup_fmap, Ht).
  destruct (s1.1 !! rid), (s2.1 !! rid); try done.
  split; cbn [fst snd]; [|done]. by rewrite !fmap_insert, Ht, Hc.
Qed.

Lemma delete_one_alike (rid : N) (s1 s2 : gmap N row * N) :
  alike s1 s2 → alike_outcome alike (delete_one rid s1) (delete_one rid s2).
Proof.
  intros [Ht Hn]. unfold delete_one.
  assert (Hl : forget_extra <$> s1.1 !! rid = forget_extra <$> s2.1 !! rid)
    by (by rewrite <- !lookup_fmap, Ht).
  destruct (s1.1 !! rid), (s2.1 !! rid); try done.
  split; cbn [fst snd]; [|done]. by rewrite !fmap_delete, Ht.
Qed.

Lemma batch_alike {A : Type} (R : A → A → Prop)
    (step : A → gmap N row * N → outcome (gmap N row * N))
    (xs1 xs2 : list A) :
  (∀ x1 x2 s1 s2, R x1 x2 → alike s1 s2 →
     alike_outcome alike (step x1 s1) (step x2 s2)) →
  Forall2 R xs1 xs2 →
  ∀ s1 s2, alike s1 s2 →
    alike_outcome alike (batch step xs1 s1) (batch step xs2 s2).
Proof.
  intros Hstep. induction 1 as [|x1 x2 xs1 xs2 Hx _ IH]; intros s1 s2 Hs.
  - exact Hs.
  - simpl. pose proof (Hstep x1 x2 s1 s2 Hx Hs) as H1.
    destruct (step x1 s1) as [s1'|a], (step x2 s2) as [s2'|b];
      cbn [alike_outcome mbind outcome_bind] in *; try done.
    by apply IH.
Qed.

Lemma apply_mutation_alike (m1 m2 : mutation) (s1 s2 : gmap N row * N) :
  same_mutation_but_extra m1 m2 → alike s1 s2 →
  alike_outcome alike (apply_mutation is_email m1 s1)
                      (apply_mutation is_email m2 s2).
Proof.
  destruct m1 as [u1|i u1|i|us1|ups1|rids],
           m2 as [u2|j u2|j|us2|ups2|rids0]; simpl; try done.
  - apply insert_one_alike.
  - intros [-> Hu]. by apply update_one_alike.
  - intros ->. apply delete_one_alike.
  - intros Hus. apply (batch_alike same_but_extra); [|done].
    intros; by apply insert_one_alike.
  - intros Hups.
    apply (batch_alike
             (λ p q : N * IUserAttributes, p.1 = q.1 ∧ same_but_extra p.2 q.2));
      [|done].
    intros [i u1] [j u2] ? ? [Hij Hu] ?. cbn [fst snd] in *. subst j.
    by apply update_one_alike.
  - intros ->. apply (batch_alike eq).
    + intros x1 x2 ? ? -> ?. by apply delete_one_alike.
    + clear. induction rids0; by constructor.
Qed.

Lemma alike_refl (s : gmap N row * N) : alike s s.
Proof. by split. Qed.

Lemma created_row (u : IUserAttributes) (d d' : db) :
  exec is_email (Create u) d = (Ok tt, d') →
  ∃ r, table d' !! next_id d = Some r ∧ row_extra r = extra u.
Proof.
  rewrite exec_run. simpl. unfold insert_one. cbn [fst snd].
  destruct (checked_row is_email (table d) (next_id d) u) as [r|] eqn:Hc;
    [|discriminate].
  cbn [mbind outcome_bind mret outcome_ret fst snd]. intros [= <-].
  apply checked_row_Ok in Hc as (_ & Hextra & _).
  exists r. cbn [table]. by rewrite lookup_insert_eq.
Qed.

Lemma updated_row (u : IUserAttributes) (rid : N) (d d' : db) :
  exec is_email (Update rid u) d = (Ok tt, d') →
  ∃ r, table d' !! rid = Some r ∧ row_extra r = extra u.
Proof.
  rewrite exec_run. simpl. unfold update_one. cbn [fst snd].
  destruct (checked_row is_email (table d) rid u) as [r|] eqn:Hc;
    [|discriminate].
  cbn [mbind outcome_bind].
  destruct (table d !! rid); [|discriminate].
  cbn [fst snd]. intros [= <-].
  apply checked_row_Ok in Hc as (_ & Hextra & _).
  exists r. cbn [table]. by rewrite lookup_insert_eq.
Qed.

(** C7.  No rule looks at [extra].  The only validator of the model is
    [requireEmailForHumans], and its outcome is the same whatever
    [extra] holds.  Two mutations that differ only in the [extra]
    payloads of their candidates (of any shape, or null) are both
    accepted or both rejected, with the same rejection.  A created or
    updated row carries the payload it was given, unchanged. *)
Theorem extra_never_validated :
  map fst (validate is_email) = ["requireEmailForHumans"]
  ∧ (∀ u x, (requireEmailForHumans is_email (with_extra x u)).1
            = (requireEmailForHumans is_email u).1)
  ∧ (∀ m1 m2 d, same_mutation_but_extra m1 m2 →
       (exec is_email m1 d).1 = (exec is_email m2 d).1)
  ∧ (∀ u d d', exec is_email (Create u) d = (Ok tt, d') →
       ∃ r, table d' !! next_id d = Some r ∧ row_extra r = extra u)
  ∧ (∀ u rid d d', exec is_email (Update rid u) d = (Ok tt, d') →
       ∃ r, table d' !! rid = Some r ∧ row_extra r = extra u).
Proof.
  split; [reflexivity|]. split; [|split; [|split]].
  - intros u x. by rewrite !requireEmailForHumans_run.
  - intros m1 m2 d Hm. rewrite !exec_run.
    pose proof (apply_mutation_alike m1 m2 _ _ Hm
                  (alike_refl (table d, next_id d))) as H.
    destruct (apply_mutation is_email m1 _), (apply_mutation is_email m2 _);
      cbn [alike_outcome fst] in *; by subst.
  - apply created_row.
  - apply updated_row.
Qed.

End Properties.

(** ** The examples of the specification, on the sample grammar *)

Example create_alice :
  exec sample_grammar (Create alice) empty_db
  = (Ok tt, {| table := {[ 1%N := {| row_id := 1; row_group := Some "general";
                                     row_name := Some "Alice";
                                     row_email := Some "a@example.com";
                                     row_isActive := Some true;
                                     row_avatarURL := None;
                                     row_extra := VUndefined |} ]};
               next_id := 2;
               trace := [Committed OpCreate; UpdateHappened] |}).
Proof. vm_compute. reflexivity. Qed.

Example create_bob :
  exec sample_grammar (Create bob) empty_db
  = (Rejected (ValidationError (Error "Email address required for human users")),
     empty_db).
Proof. vm_compute. reflexivity. Qed.

Example create_svc_bot :
  (exec sample_grammar (Create svc_bot) empty_db).1 = Ok tt.
Proof. vm_compute. reflexivity. Qed.

Example every_operation_can_succeed :
  let d1 := (exec sample_grammar (BulkCreate [alice; svc_bot]) empty_db).2 in
  let d2 := (exec sample_grammar (Update 2 shared_service) d1).2 in
  let d3 := (exec sample_grammar (BulkUpdate [(1%N, alice); (2%N, svc_bot)]) d2).2 in
  let d4 := (exec sample_grammar (Destroy 1) d3).2 in
  let d5 := (exec sample_grammar (BulkDestroy [2%N]) d4).2 in
  trace d5 = [ Committed OpBulkCreate; UpdateHappened;
               Committed OpUpdate; UpdateHappened;
               Committed OpBulkUpdate; UpdateHappened;
               Committed OpDestroy; UpdateHappened;
               Committed OpBulkDestroy; UpdateHappened ]
  ∧ table d5 = ∅.
Proof. vm_compute. split; reflexivity. Qed.

(** ** The theorems at concrete records *)

Lemma human_without_email_rejected_witness :
  human bob ∧ invalid_email sample_grammar (email bob)
  ∧ requireEmailForHumans sample_grammar bob
      = (Throw (Error "Email address required for human users"), bob)
  ∧ exec sample_grammar (Create bob) empty_db
      = (Rejected (ValidationError
           (Error "Email address required for human users")), empty_db).
Proof.
  assert (Hh : human bob) by (left; reflexivity).
  assert (Hbad : invalid_email sample_grammar (email bob))
    by (right; left; reflexivity).
  split; [exact Hh|]. split; [exact Hbad|].
  destruct (human_without_email_rejected sample_grammar bob Hh Hbad)
    as (Hthrow & Hcreate & _).
  split; [exact Hthrow|exact (Hcreate empty_db)].
Defined.

Lemma no_email_required_for_other_groups_witness :
  group svc_bot ≠ VStr USER_GROUP_GENERAL
  ∧ group svc_bot ≠ VStr USER_GROUP_ADMIN
  ∧ email svc_bot = VNull
  ∧ requireEmailForHumans sample_grammar svc_bot = (Return tt, svc_bot)
  ∧ run_validators (validate sample_grammar) svc_bot = (Return tt, svc_bot).
Proof.
  assert (Hg : group svc_bot ≠ VStr USER_GROUP_GENERAL) by (simpl; discriminate).
  assert (Ha : group svc_bot ≠ VStr USER_GROUP_ADMIN) by (simpl; discriminate).
  split; [exact Hg|]. split; [exact Ha|]. split; [reflexivity|].
  exact (no_email_required_for_other_groups sample_grammar svc_bot Hg Ha).
Defined.

Lemma update_notifier_once_witness :
  (∃ d', exec sample_grammar (Create alice) empty_db = (Ok tt, d')
         ∧ trace d' = [Committed OpCreate; UpdateHappened])
  ∧ (∃ r d', exec sample_grammar (BulkCreate [alice; bob]) empty_db = (Rejected r, d')
             ∧ d' = empty_db).
Proof.
  split.
  - exists (exec sample_grammar (Create alice) empty_db).2.
    assert (H : exec sample_grammar (Create alice) empty_db
                = (Ok tt, (exec sample_grammar (Create alice) empty_db).2))
      by (vm_compute; reflexivity).
    split; [exact H|].
    exact (proj1 (update_notifier_once sample_grammar (Create alice) empty_db) _ H).
  - exists (ValidationError (Error "Email address required for human users")).
    exists (exec sample_grammar (BulkCreate [alice; bob]) empty_db).2.
    assert (H : exec sample_grammar (BulkCreate [alice; bob]) empty_db
                = (Rejected (ValidationError
                     (Error "Email address required for human users")),
                   (exec sample_grammar (BulkCreate [alice; bob]) empty_db).2))
      by (vm_compute; reflexivity).
    split; [exact H|].
    exact (proj2 (update_notifier_once sample_grammar (BulkCreate [alice; bob]) empty_db)
                 _ _ H).
Defined.

Lemma email_group_pairs_unique_witness :
  reachable sample_grammar two_users
  ∧ (∃ r1 r2, table two_users !! 1%N = Some r1 ∧ table two_users !! 2%N = Some r2
       ∧ row_email r1 ≠ None ∧ email_group r1 ≠ email_group r2)
  ∧ (∃ rej, exec sample_grammar (Create alice) two_users = (Rejected rej, two_users)
       ∧ (rej = UniqueConstraintError ["email"; "group"]
          ∨ ∃ e, rej = ValidationError e))
  ∧ (∃ rej, exec sample_grammar (Update 2 alice) two_users = (Rejected rej, two_users)
       ∧ (rej = UniqueConstraintError ["email"; "group"]
          ∨ ∃ e, rej = ValidationError e))
  ∧ (exec sample_grammar (Create second_service) two_users).1
    ≠ Rejected (UniqueConstraintError ["email"; "group"]).
Proof.
  assert (Hreach : reachable sample_grammar two_users)
    by (do 2 apply reachable_exec; apply reachable_empty).
  destruct (email_group_pairs_unique sample_grammar two_users Hreach)
    as (Hunique & Hcreate & Hupdate & Hnull).
  pose (r1 := {| row_id := 1; row_group := Some "general"; row_name := Some "Alice";
                 row_email := Some "a@example.com"; row_isActive := Some true;
                 row_avatarURL := None; row_extra := VUndefined |}).
  pose (r2 := {| row_id := 2; row_group := Some "service"; row_name := Some "svc-bot";
                 row_email := None; row_isActive := Some true;
                 row_avatarURL := None; row_extra := VUndefined |}).
  assert (H1 : table two_users !! 1%N = Some r1) by (vm_compute; reflexivity).
  assert (H2 : table two_users !! 2%N = Some r2) by (vm_compute; reflexivity).
  assert (Hemail : row_email r1 ≠ None) by discriminate.
  split; [exact Hreach|]. split; [|split; [|split]].
  - exists r1, r2. split; [exact H1|]. split; [exact H2|]. split; [exact Hemail|].
    apply (Hunique 1%N 2%N r1 r2 H1 H2); [discriminate|exact Hemail].
  - apply (Hcreate alice 1%N r1 (forget_extra {| row_id := 3; row_group := Some "general";
        row_name := Some "Alice"; row_email := Some "a@example.com";
        row_isActive := Some true; row_avatarURL := None; row_extra := VUndefined |}));
      [exact H1 | vm_compute; reflexivity | discriminate | reflexivity].
  - apply (Hupdate alice 2%N 1%N r1 (forget_extra {| row_id := 2; row_group := Some "general";
        row_name := Some "Alice"; row_email := Some "a@example.com";
        row_isActive := Some true; row_avatarURL := None; row_extra := VUndefined |}));
      [exact H1 | discriminate | vm_compute; reflexivity | discriminate | reflexivity].
  - apply (Hnull second_service
             {| row_id := 3; row_group := Some "service"; row_name := Some "other-bot";
                row_email := None; row_isActive := Some false;
                row_avatarURL := None; row_extra := VNull |});
      [vm_compute; reflexivity | reflexivity].
Defined.

(** C5 as stated fails: two service users without an email are persisted
    together, with the same (email, group) pair; the second write is not
    rejected. *)
Lemma null_emails_share_a_group :
  reachable sample_grammar two_services
  ∧ exec sample_grammar (Create second_service) one_service = (Ok tt, two_services)
  ∧ ∃ r1 r2, table two_services !! 1%N = Some r1
      ∧ table two_services !! 2%N = Some r2
      ∧ email_group r1 = email_group r2.
Proof.
  split; [do 2 apply reachable_exec; apply reachable_empty|].
  split; [vm_compute; reflexivity|].
  exists {| row_id := 1; row_group := Some "service"; row_name := Some "svc-bot";
            row_email := None; row_isActive := Some true;
            row_avatarURL := None; row_extra := VUndefined |}.
  exists {| row_id := 2; row_group := Some "service"; row_name := Some "other-bot";
            row_email := None; row_isActive := Some false;
            row_avatarURL := None; row_extra := VNull |}.
  split; [vm_compute; reflexivity|]. split; [vm_compute; reflexivity|].
  reflexivity.
Qed.

Lemma non_string_email_rejected_witness :
  human admin_with_object_email
  ∧ (∀ s, email admin_with_object_email ≠ VStr s)
  ∧ sample_grammar "a@example.com" = true
  ∧ requireEmailForHumans sample_grammar admin_with_object_email
      = (Throw (Error "Email address required for human users"),
         admin_with_object_email).
Proof.
  assert (Hh : human admin_with_object_email) by (right; reflexivity).
  assert (Hns : ∀ s, email admin_with_object_email ≠ VStr s)
    by (intros s; simpl; discriminate).
  assert (Hr : sample_grammar ((λ _ : value, "a@example.com")
                                 (email admin_with_object_email)) = true)
    by reflexivity.
  split; [exact Hh|]. split; [exact Hns|]. split; [reflexivity|].
  exact (proj1 (non_string_email_rejected sample_grammar admin_with_object_email
                  (λ _, "a@example.com") Hh Hns Hr)).
Defined.

Lemma extra_never_validated_witness :
  same_mutation_but_extra (Create alice) (Create (with_extra scorer_extra alice))
  ∧ (exec sample_grammar (Create alice) empty_db).1
    = (exec sample_grammar (Create (with_extra scorer_extra alice)) empty_db).1
  ∧ ∃ r, table (exec sample_grammar (Create (with_extra scorer_extra alice)) empty_db).2
           !! 1%N = Some r
         ∧ row_extra r = scorer_extra.
Proof.
  assert (Hm : same_mutation_but_extra (Create alice)
                 (Create (with_extra scorer_extra alice)))
    by (repeat split).
  destruct (extra_never_validated sample_grammar) as (_ & _ & Hsame & Hcreate & _).
  split; [exact Hm|]. split; [exact (Hsame _ _ empty_db Hm)|].
  apply (Hcreate (with_extra scorer_extra alice) empty_db
           (exec sample_grammar (Create (with_extra scorer_extra alice)) empty_db).2).
  vm_compute. reflexivity.
Defined.

Lemma validator_reads_group_and_email_only_witness :
  group alice = group alice_renamed
  ∧ email alice = email alice_renamed
  ∧ (requireEmailForHumans sample_grammar alice).1
    = (requireEmailForHumans sample_grammar alice_renamed).1
  ∧ (requireEmailForHumans sample_grammar alice).2 = alice.
Proof.
  split; [reflexivity|]. split; [reflexivity|].
  destruct (validator_reads_group_and_email_only sample_grammar alice alice_renamed
              eq_refl eq_refl) as (Hsame & Hkeep & _).
  split; [exact Hsame|exact Hkeep].
Defined.

(** * Further properties of the model *)

(** ** [isUser] on instances *)

(** X8.  An instance of any group of [USER_GROUPS] is recognised: whatever
    else the object holds, when its [get] reads as a truthy value and its
    [group] reads as one of the five group names, [isUser] gives [true].
    An instance whose group is not set, or set to a falsy value, is not:
    the result is the Boolean [false]. *)
Theorem isUser_on_instances (props : gmap string slot) (getter grp : value) :
  get_prop (VObj props) "get" = Return getter →
  to_boolean getter = true →
  get_prop (VObj props) "group" = Return grp →
  ((∃ g, grp = VStr g ∧ g ∈ USER_GROUPS) → isUser (VObj props) = Return (VBool true))
  ∧ (to_boolean grp = false → isUser (VObj props) = Return (VBool false)).
Proof.
  intros Hget Htruthy Hgroup.
  assert (Hrun : isUser (VObj props) = Return (VBool (to_boolean grp))).
  { rewrite isUser_truthy by reflexivity. rewrite Hget.
    cbn [mbind completion_bind]. rewrite Htruthy, Hgroup. reflexivity. }
  rewrite Hrun. split.
  - intros (g & -> & Hin). do 2 f_equal. simpl.
    unfold USER_GROUPS in Hin.
    repeat (apply elem_of_cons in Hin as [->|Hin]; [reflexivity|]).
    by apply elem_of_nil in Hin.
  - by intros ->.
Qed.

(** X9.  [isUser] looks at the [get] and [group] properties only: two objects
    that agree on these two get the same outcome, whatever their other
    properties are, so any object with the two properties passes for a
    User. *)
Theorem isUser_reads_get_and_group_only (props1 props2 : gmap string slot) :
  props1 !! "get" = props2 !! "get" →
  props1 !! "group" = props2 !! "group" →
  isUser (VObj props1) = isUser (VObj props2).
Proof.
  intros Hget Hgroup. rewrite !isUser_truthy by reflexivity.
  unfold get_prop. by rewrite Hget, Hgroup.
Qed.

(** ** [User.associate] *)

Lemma associate_run
    (refuses : list association → association → option js_error)
    (models : value) (st : list association) :
  readable models →
  associate refuses models st =
    match declared models with
    | [c1; c2; c3] =>
        match refuses st c1 with
        | Some e => (Throw e, st)
        | None =>
            match refuses (st ++ [c1]) c2 with
            | Some e => (Throw e, st ++ [c1])
            | None =>
                match refuses ((st ++ [c1]) ++ [c2]) c3 with
                | Some e => (Throw e, (st ++ [c1]) ++ [c2])
                | None => (Return tt, ((st ++ [c1]) ++ [c2]) ++ [c3])
                end
            end
        end
    | _ => (Return tt, st)
    end.
Proof.
  intros Hread.
  destruct (Hread "Category") as [c Hc]; [unfold registry_names; set_solver|].
  destruct (Hread "UserCategoryAssignment") as [a Ha];
    [unfold registry_names; set_solver|].
  destruct (Hread "Article") as [r Hr]; [unfold registry_names; set_solver|].
  destruct (Hread "ModeratorAssignment") as [m Hm];
    [unfold registry_names; set_solver|].
  unfold declared, registered, associate, evaluate, belongsToMany, through_join.
  cbv [mbind wiring_bind]. rewrite Hc, Ha, Hr, Hm.
  destruct (refuses st _); [reflexivity|].
  destruct (refuses (st ++ _) _); [reflexivity|].
  destruct (refuses ((st ++ _) ++ _) _); reflexivity.
Qed.

(** X10.  Called with [null] or [undefined] for the registry, [User.associate]
    throws a type error on its first read, before any call of
    [belongsToMany]: no association is added. *)
Theorem associate_without_registry
    (refuses : list association → association → option js_error)
    (models : value) (st : list association) :
  models = VNull ∨ models = VUndefined →
  ∃ message, associate refuses models st = (Throw (TypeError message), st).
Proof. intros [->| ->]; eexists; reflexivity. Qed.


(** When the ORM accepts the calls, [User.associate] adds three
    associations, each through a join model, keyed by [userId] and not
    unique: Category through UserCategoryAssignment under the default
    name, Article through ModeratorAssignment as [assignedArticles], and
    Category through UserCategoryAssignment again as [assignedCategories].
    It checks nothing itself: a model missing from the registry is passed
    on as [undefined]. *)
Theorem associate_accepted (models : value) (st : list association) :
  readable models →
  associate refuses_nothing models st =
    (Return tt,
     st ++ [ through_join (registered models "Category")
                          (registered models "UserCategoryAssignment") None;
             through_join (registered models "Article")
                          (registered models "ModeratorAssignment")
                          (Some "assignedArticles");
             through_join (registered models "Category")
                          (registered models "UserCategoryAssignment")
                          (Some "assignedCategories") ])
  ∧ (∀ props key, models = VObj props → props !! key = None →
       registered models key = VUndefined).
Proof.
  intros Hread. split.
  - rewrite (associate_run refuses_nothing models st Hread).
    unfold declared, refuses_nothing. by rewrite <- !app_assoc.
  - intros props key -> Hnone. unfold registered, get_prop. by rewrite Hnone.
Qed.

Section StoredRows.

Context (is_email : string → bool).

(** ** What an accepted candidate is stored as *)

Lemma checked_row_inv (t : gmap N row) (rid : N) (u : IUserAttributes) (r : row) :
  checked_row is_email t rid u = Ok r →
  requireEmailForHumans is_email u = (Return tt, u) ∧ to_row rid u = Ok r.
Proof.
  rewrite checked_row_run, requireEmailForHumans_run. cbn [fst].
  destruct (if _ : bool then _ else _) as [[]|e]; [|discriminate].
  destruct (to_row rid u) as [r0|]; cbn [mbind outcome_bind]; [|discriminate].
  destruct (violated indexes t r0); [discriminate|].
  by intros [= ->].
Qed.

Lemma store_text_Some (column : string) (a : attribute) (v : value) (s : string) :
  store_text column a v = Ok (Some s) → v = VStr s ∧ fits (type a) s = true.
Proof.
  unfold store_text. repeat case_match; intros; simplify_eq; done.
Qed.

Lemma to_row_cells (rid : N) (u : IUserAttributes) (r : row) :
  to_row rid u = Ok r →
  store_text "group" Attributes.group (group u) = Ok (row_group r)
  ∧ store_text "name" Attributes.name (name u) = Ok (row_name r)
  ∧ store_text "email" Attributes.email (email u) = Ok (row_email r)
  ∧ store_bool "isActive" Attributes.isActive (isActive u) = Ok (row_isActive r)
  ∧ store_text "avatarURL" Attributes.avatarURL (avatarURL u) = Ok (row_avatarURL r).
Proof.
  unfold to_row. cbv [mbind outcome_bind mret outcome_ret].
  destruct (store_text "group" _ _); [|discriminate].
  destruct (store_text "name" _ _); [|discriminate].
  destruct (store_text "email" _ _); [|discriminate].
  destruct (store_bool "isActive" _ _); [|discriminate].
  destruct (store_text "avatarURL" _ _); [|discriminate].
  by intros [= <-].
Qed.

(** X1.  The validator accepts a candidate of group [general] or [admin]
    exactly when its email is a non-empty string of the email grammar; it
    then returns normally and leaves the instance as it was. *)
Theorem valid_email_accepted (u : IUserAttributes) :
  human u →
  requireEmailForHumans is_email u = (Return tt, u)
  ↔ ∃ s, email u = VStr s ∧ s ≠ "" ∧ is_email s = true.
Proof.
  intros Hh. rewrite requireEmailForHumans_run, (human_test u Hh). split.
  - destruct (email u) as [| | | | |s| |]; simpl; try discriminate.
    destruct (String.eqb_spec s ""); [discriminate|].
    destruct (is_email s) eqn:Hs; [|discriminate].
    intros _. by exists s.
  - intros (s & -> & Hne & Hs). simpl.
    destruct (String.eqb_spec s ""); [done|]. by rewrite Hs.
Qed.

(** ** Invariants of the table over all writes *)

Lemma batch_invariant {A : Type} (Inv : gmap N row * N → Prop)
    (step : A → gmap N row * N → outcome (gmap N row * N)) (xs : list A) :
  (∀ x s s', step x s = Ok s' → Inv s → Inv s') →
  ∀ s s', batch step xs s = Ok s' → Inv s → Inv s'.
Proof.
  intros Hstep. induction xs as [|x xs IH]; intros s s'; simpl.
  - by intros [= <-].
  - destruct (step x s) as [s1|] eqn:H1; [|discriminate].
    cbn [mbind outcome_bind]. intros Hrest Hs.
    apply (IH s1 s'); [done|]. by apply (Hstep x s).
Qed.

Lemma apply_mutation_rows (P : row → Prop) :
  (∀ t rid u r, checked_row is_email t rid u = Ok r → P r) →
  ∀ m s s', apply_mutation is_email m s = Ok s' →
    map_Forall (λ _, P) s.1 → map_Forall (λ _, P) s'.1.
Proof.
  intros Hrow.
  assert (Hins : ∀ u s s', insert_one is_email u s = Ok s' →
            map_Forall (λ _, P) s.1 → map_Forall (λ _, P) s'.1).
  { intros u [t n] s'. unfold insert_one. cbn [fst snd].
    destruct (checked_row is_email t n u) as [r|] eqn:Hc; [|discriminate].
    intros [= <-] Hall. cbn [fst]. apply map_Forall_insert_2; [|done].
    by apply (Hrow t n u). }
  assert (Hupd : ∀ rid u s s', update_one is_email rid u s = Ok s' →
            map_Forall (λ _, P) s.1 → map_Forall (λ _, P) s'.1).
  { intros rid u [t n] s'. unfold update_one. cbn [fst snd].
    destruct (checked_row is_email t rid u) as [r|] eqn:Hc; [|discriminate].
    cbn [mbind outcome_bind]. destruct (t !! rid); [|discriminate].
    intros [= <-] Hall. cbn [fst]. apply map_Forall_insert_2; [|done].
    by apply (Hrow t rid u). }
  assert (Hdel : ∀ rid s s', delete_one rid s = Ok s' →
            map_Forall (λ _, P) s.1 → map_Forall (λ _, P) s'.1).
  { intros rid [t n] s'. unfold delete_one. cbn [fst snd].
    destruct (t !! rid); [|discriminate].
    intros [= <-] Hall. cbn [fst]. by apply map_Forall_delete. }
  intros [u|rid u|rid|us|ups|rids] s s'; simpl.
  - apply Hins.
  - apply Hupd.
  - apply Hdel.
  - apply (batch_invariant (λ s, map_Forall (λ _, P) s.1)). apply Hins.
  - apply (batch_invariant (λ s, map_Forall (λ _, P) s.1)).
    intros [rid u]. apply Hupd.
  - apply (batch_invariant (λ s, map_Forall (λ _, P) s.1)). apply Hdel.
Qed.

Lemma reachable_rows (P : row → Prop) (d : db) :
  (∀ t rid u r, checked_row is_email t rid u = Ok r → P r) →
  reachable is_email d → map_Forall (λ _, P) (table d).
Proof.
  intros Hrow. induction 1 as [|m d Hd IH].
  - apply map_Forall_empty.
  - rewrite exec_run.
    destruct (apply_mutation is_email m (table d, next_id d)) as [s|] eqn:Hm;
      [|done].
    cbn [snd table]. by apply (apply_mutation_rows P Hrow m _ _ Hm).
Qed.

Lemma reachable_by_rows_reachable (d : db) :
  reachable_by_rows is_email d → reachable is_email d.
Proof.
  induction 1 as [|m d _ _ IH]; [apply reachable_empty|].
  by apply reachable_exec.
Qed.

(** X3.  In every state that single-row writes lead to (creates, updates
    and destroys of one instance), a persisted row of group [general] or
    [admin] holds an email that is a non-empty string of the grammar: no
    sequence of such writes gets a human user without a valid email past
    [requireEmailForHumans]. *)
Theorem human_rows_have_email (d : db) :
  reachable_by_rows is_email d →
  ∀ i r, table d !! i = Some r → human_row r → has_valid_email is_email r.
Proof.
  intros Hrows i r Hl.
  pose proof (reachable_by_rows_reachable d Hrows) as Hreach.
  cut (∀ t rid u r, checked_row is_email t rid u = Ok r →
         human_row r → has_valid_email is_email r);
    [intros Hrow; exact (reachable_rows _ d Hrow Hreach i r Hl)|].
  clear. intros t rid u r Hc Hhuman.
  apply checked_row_inv in Hc as [Hvalid Hrow].
  apply to_row_cells in Hrow as (Hg & _ & He & _).
  assert (Hh : human u).
  { destruct Hhuman as [H|H]; rewrite H in Hg;
      apply store_text_Some in Hg as [Hg _]; [by left|by right]. }
  apply (human_accepted_iff is_email u Hh) in Hvalid as (s & Hs & Hne & Hgram).
  exists s. split; [|done].
  rewrite Hs in He. unfold store_text in He.
  destruct (fits _ s); by simplify_eq.
Qed.

Lemma created_as (u : IUserAttributes) (d d' : db) :
  exec is_email (Create u) d = (Ok tt, d') →
  ∃ r, table d' !! next_id d = Some r ∧ to_row (next_id d) u = Ok r.
Proof.
  rewrite exec_run. simpl. unfold insert_one. cbn [fst snd].
  destruct (checked_row is_email (table d) (next_id d) u) as [r|] eqn:Hc;
    [|discriminate].
  cbn [mbind outcome_bind mret outcome_ret fst snd]. intros [= <-].
  apply checked_row_inv in Hc as [_ Hrow].
  exists r. cbn [table]. by rewrite lookup_insert_eq.
Qed.

(** X5.  A candidate created without an [isActive] value is persisted as
    inactive, the declared default; one whose [isActive] is [null] is
    never persisted, the column not being nullable. *)
Theorem isActive_defaults_to_false (u : IUserAttributes) (d : db) :
  (isActive u = VUndefined →
     ∀ d', exec is_email (Create u) d = (Ok tt, d') →
       ∃ r, table d' !! next_id d = Some r ∧ row_isActive r = Some false)
  ∧ (isActive u = VNull →
       ∃ rej, exec is_email (Create u) d = (Rejected rej, d)).
Proof.
  split.
  - intros Hundef d' Hexec.
    destruct (created_as u d d' Hexec) as (r & Hl & Hrow).
    exists r. split; [done|].
    apply to_row_cells in Hrow as (_ & _ & _ & Ha & _).
    rewrite Hundef in Ha. simpl in Ha. by simplify_eq.
  - intros Hnull. rewrite exec_run. simpl. unfold insert_one. cbn [fst snd].
    destruct (checked_row is_email (table d) (next_id d) u) as [r|rej] eqn:Hc;
      [|eauto].
    apply checked_row_inv in Hc as [_ Hrow].
    apply to_row_cells in Hrow as (_ & _ & _ & Ha & _).
    rewrite Hnull in Ha. discriminate.
Qed.

Lemma reachable_replay (ms : list mutation) (d : db) :
  reachable is_email d → reachable is_email (replay is_email ms d).
Proof.
  revert d. induction ms as [|m ms IH]; intros d Hd; [done|].
  simpl. apply IH. by apply reachable_exec.
Qed.

(** X7.  In every state that writes can lead to, the trace is a sequence of
    commits each followed at once by one call of [updateHappened]: over a
    whole history the notifier has been called once per accepted mutation
    and never ahead of its commit. *)
Theorem trace_is_notified_commits (d : db) :
  reachable is_email d →
  ∃ ops, trace d = notified ops
    ∧ notifier_calls (trace d) = length ops
    ∧ commits (trace d) = length ops.
Proof.
  induction 1 as [|m d Hd (ops & IH & Hcalls & Hcommits)].
  - by exists [].
  - rewrite exec_run.
    destruct (apply_mutation is_email m (table d, next_id d)) as [s|];
      [|by exists ops].
    exists (ops ++ [operation_of m]). cbn [snd trace].
    unfold notified, notifier_calls, commits in *.
    rewrite flat_map_app, !List.filter_app, !length_app, Hcalls, Hcommits.
    simpl. by rewrite IH.
Qed.

End StoredRows.

(** ** The further properties at concrete records *)

Lemma valid_email_accepted_witness :
  human alice
  ∧ requireEmailForHumans sample_grammar alice = (Return tt, alice).
Proof.
  assert (Hh : human alice) by (left; reflexivity).
  split; [exact Hh|].
  apply (proj2 (valid_email_accepted sample_grammar alice Hh)).
  exists "a@example.com". split; [reflexivity|]. split; [discriminate|reflexivity].
Defined.

Lemma isUser_on_instances_witness :
  isUser (VObj user_instance) = Return (VBool true).
Proof.
  refine (proj1 (isUser_on_instances user_instance (VFun "get") (VStr "youtube")
                   _ _ _) _).
  - vm_compute. reflexivity.
  - reflexivity.
  - vm_compute. reflexivity.
  - exists "youtube". split; [reflexivity|]. unfold USER_GROUPS. set_solver.
Defined.

Lemma isUser_reads_get_and_group_only_witness :
  isUser (VObj user_instance) = isUser (VObj article_like).
Proof.
  apply (isUser_reads_get_and_group_only user_instance article_like);
    vm_compute; reflexivity.
Defined.

Lemma associate_without_registry_witness :
  ∃ message, associate refuses_nothing VUndefined [] = (Throw (TypeError message), []).
Proof.
  apply (associate_without_registry refuses_nothing VUndefined []). by right.
Defined.

Lemma readable_full_registry : readable full_registry.
Proof.
  intros key Hin. unfold registry_names in Hin.
  repeat (apply elem_of_cons in Hin as [->|Hin];
          [eexists; vm_compute; reflexivity|]).
  by apply elem_of_nil in Hin.
Defined.



Lemma associate_accepted_witness :
  (associate refuses_nothing full_registry []).1 = Return tt
  ∧ length (associate refuses_nothing full_registry []).2 = 3%nat.
Proof.
  destruct (associate_accepted full_registry [] readable_full_registry) as [H _].
  rewrite H. split; reflexivity.
Defined.

Lemma human_rows_have_email_witness :
  ∃ r, table two_users !! 1%N = Some r ∧ human_row r
       ∧ has_valid_email sample_grammar r.
Proof.
  assert (Hreach : reachable_by_rows sample_grammar two_users)
    by (do 2 (apply by_rows_exec; [reflexivity|]); apply by_rows_empty).
  pose (r1 := {| row_id := 1; row_group := Some "general"; row_name := Some "Alice";
                 row_email := Some "a@example.com"; row_isActive := Some true;
                 row_avatarURL := None; row_extra := VUndefined |}).
  assert (H1 : table two_users !! 1%N = Some r1) by (vm_compute; reflexivity).
  assert (Hh : human_row r1) by (left; reflexivity).
  exists r1. split; [exact H1|]. split; [exact Hh|].
  exact (human_rows_have_email sample_grammar two_users Hreach 1%N r1 H1 Hh).
Defined.

Lemma isActive_defaults_to_false_witness :
  isActive carol_without_flag = VUndefined
  ∧ ∃ r, table (exec sample_grammar (Create carol_without_flag) empty_db).2 !! 1%N
         = Some r ∧ row_isActive r = Some false.
Proof.
  split; [reflexivity|].
  apply (proj1 (isActive_defaults_to_false sample_grammar carol_without_flag empty_db)
           eq_refl (exec sample_grammar (Create carol_without_flag) empty_db).2).
  vm_compute. reflexivity.
Defined.

Lemma trace_is_notified_commits_witness :
  ∃ ops, trace (replay sample_grammar history empty_db) = notified ops
    ∧ notifier_calls (trace (replay sample_grammar history empty_db)) = length ops
    ∧ commits (trace (replay sample_grammar history empty_db)) = length ops.
Proof.
  apply (trace_is_notified_commits sample_grammar).
  apply reachable_replay. apply reachable_empty.
Defined.
